(** * Spin population models of gwpopulation ([gwpopulation/models/spin.py])

    A shallow embedding of the spin priors and of the array operations
    they are written with.

    - Floating-point numbers are idealised as real numbers: Python
      [float] and numpy [float64] both carry an [R], and [x ** 2] is
      [x ^ 2].  Rounding, overflow and underflow are not modelled.
    - Division by a divisor other than zero is the division of the
      reals.  Division by zero is not: between two Python numbers it
      raises [ZeroDivisionError]; numpy yields [inf] or [nan] instead,
      which no real number stands for, and the model puts an entry it
      knows nothing about in that place ([div_by_zero]).
    - A numpy array is a shape together with its entries in row-major
      order; binary operations follow numpy's broadcasting rules.
    - Arrays live in a store and are named by references, so that the
      in-place updates [prob *= ...] and [prob /= ...] of the source can
      be told apart from the allocating operations.
    - Python exceptions are results of the evaluation monad.
    - [xp] is the array backend.  [spin.py] uses the name without
      binding it: the model takes it to be bound to numpy by the
      package around the module, so that [linspace], [meshgrid], [exp]
      and [trapz] are numpy's.
    - [beta_dist] and [truncnorm] come from [gwpopulation.utils], which
      is not part of the verified sources: they are parameters.
    - A dataset is a dictionary of arrays of one length; the theorems
      on entrywise results assume the arrays they combine have one
      shape. *)

From Stdlib Require Import Reals Lra.
From stdpp Require Import gmap strings list.

(** ** Exceptions and results *)

(** The Python exceptions the programs can raise.  [InvalidRef] is not
    one of them: it is the answer of the model to a reference that names
    no array of the store, which no Python program can hold. *)
Inductive exn : Type :=
  | KeyError (key : string)
  | ValueError
  | IndexError
  | ZeroDivisionError
  | InvalidRef.

Inductive res (A : Type) : Type :=
  | Ok (a : A)
  | Raise (e : exn).
Arguments Ok {A} a.
Arguments Raise {A} e.

#[global] Instance res_ret : MRet res := λ A a, Ok a.
#[global] Instance res_bind : MBind res := λ A B k r,
  match r with
  | Ok a => k a
  | Raise e => Raise e
  end.

(** ** Arrays *)

Module Nd.

(** An n-dimensional array: [shape] lists the extent of every axis and
    [data] holds the entries in row-major (C) order.  A scalar is the
    array of shape [[]]. *)
Record ndarray : Type := NdArray { shape : list nat; data : list R }.

Definition size_of (s : list nat) : nat := foldr Nat.mul 1%nat s.

Definition wf (a : ndarray) : Prop := length (data a) = size_of (shape a).

Definition scalar (x : R) : ndarray := NdArray [] [x].

Definition nd_map (f : R → R) (a : ndarray) : ndarray :=
  NdArray (shape a) (map f (data a)).

(** The entrywise combination of two arrays of one shape. *)
Definition nd_zip (f : R → R → R) (a b : ndarray) : ndarray :=
  NdArray (shape a) (zip_with f (data a) (data b)).

(** *** Broadcasting *)

Definition broadcast_dim (d1 d2 : nat) : option nat :=
  if decide (d1 = d2) then Some d1
  else if decide (d1 = 1%nat) then Some d2
  else if decide (d2 = 1%nat) then Some d1
  else None.

(** Shapes are compared from the trailing axis: [broadcast_rev] works on
    the reversed shapes, a missing leading axis counts as 1. *)
Fixpoint broadcast_rev (s1 s2 : list nat) : option (list nat) :=
  match s1, s2 with
  | [], s => Some s
  | s, [] => Some s
  | d1 :: t1, d2 :: t2 =>
      d ← broadcast_dim d1 d2;
      t ← broadcast_rev t1 t2;
      Some (d :: t)
  end.

Definition broadcast_shapes (s1 s2 : list nat) : option (list nat) :=
  reverse <$> broadcast_rev (reverse s1) (reverse s2).

(** [rows k n l]: the first [k] consecutive blocks of [n] entries of [l]. *)
Fixpoint rows (k n : nat) (l : list R) : list (list R) :=
  match k with
  | O => []
  | S k' => take n l :: rows k' n (drop n l)
  end.

(** The entries of an array of shape [s] stretched to shape [t]: an axis
    that [s] lacks, or has with extent 1, is repeated. *)
Fixpoint broadcast_data (s t : list nat) (l : list R) : list R :=
  match t with
  | [] => l
  | d :: t' =>
      if decide (length s < length t)%nat then
        concat (replicate d (broadcast_data s t' l))
      else
        match s with
        | [] => l
        | ds :: s' =>
            if decide (ds = d) then
              concat (map (broadcast_data s' t') (rows ds (size_of s') l))
            else concat (replicate d (broadcast_data s' t' l))
        end
  end.

(** [a op b] for a binary ufunc: a new array of the broadcast shape. *)
Definition nd_binop (f : R → R → R) (a b : ndarray) : res ndarray :=
  match broadcast_shapes (shape a) (shape b) with
  | None => Raise ValueError
  | Some s =>
      Ok (NdArray s (zip_with f (broadcast_data (shape a) s (data a))
                                (broadcast_data (shape b) s (data b))))
  end.

(** [a op= b]: the result is written into [a], whose shape cannot change. *)
Definition nd_ibinop (f : R → R → R) (a b : ndarray) : res ndarray :=
  match broadcast_shapes (shape a) (shape b) with
  | None => Raise ValueError
  | Some s =>
      if decide (s = shape a) then
        Ok (NdArray s (zip_with f (broadcast_data (shape a) s (data a))
                                  (broadcast_data (shape b) s (data b))))
      else Raise ValueError
  end.

(** *** Array construction: [linspace] and [meshgrid] *)

(** [xp.linspace(start, stop, num)]: [num] points, both ends included. *)
Definition nd_linspace (start stop : R) (num : nat) : ndarray :=
  let step := ((stop - start) / INR (num - 1))%R in
  NdArray [num] (map (λ i, (start + INR i * step)%R) (seq 0 num)).

(** [xp.meshgrid(x, y)] with the default [indexing='xy']: both results
    have shape [(len(y), len(x))]; the first repeats [x] along the rows,
    the second repeats each entry of [y] across a row. *)
Definition nd_meshgrid (x y : ndarray) : ndarray * ndarray :=
  let nx := length (data x) in
  let ny := length (data y) in
  (NdArray [ny; nx] (concat (replicate ny (data x))),
   NdArray [ny; nx] (concat (map (replicate nx) (data y)))).

(** *** Trapezoidal integration along the last axis *)

Definition diff_list (l : list R) : list R := zip_with Rminus (tail l) l.

Definition sum_list (l : list R) : R := foldr Rplus 0%R l.

(** [xp.diff(x)] along the last axis. *)
Definition nd_diff (x : ndarray) : res ndarray :=
  match reverse (shape x) with
  | [] => Raise ValueError
  | n :: pre =>
      Ok (NdArray (reverse pre ++ [(n - 1)%nat])
            (concat (map diff_list (rows (size_of pre) n (data x)))))
  end.

(** [y[..., 1:]] and [y[..., :-1]]. *)
Definition nd_tail_last (y : ndarray) : res ndarray :=
  match reverse (shape y) with
  | [] => Raise IndexError
  | n :: pre =>
      Ok (NdArray (reverse pre ++ [(n - 1)%nat])
            (concat (map tail (rows (size_of pre) n (data y)))))
  end.

Definition nd_init_last (y : ndarray) : res ndarray :=
  match reverse (shape y) with
  | [] => Raise IndexError
  | n :: pre =>
      Ok (NdArray (reverse pre ++ [(n - 1)%nat])
            (concat (map (@removelast R) (rows (size_of pre) n (data y)))))
  end.

(** [a.sum(-1)]. *)
Definition nd_sum_last (a : ndarray) : res ndarray :=
  match reverse (shape a) with
  | [] => Raise IndexError
  | n :: pre =>
      Ok (NdArray (reverse pre) (map sum_list (rows (size_of pre) n (data a))))
  end.

(** The spacing [d] of [trapz]: for a one-dimensional [x], [diff(x)]
    reshaped to [[1, ..., 1, len(x) - 1]] with as many axes as [y];
    otherwise [diff(x, axis=-1)]. *)
Definition trapz_spacing (y x : ndarray) : res ndarray :=
  if decide (length (shape x) = 1%nat) then
    d ← nd_diff x;
    match shape y with
    | [] => Raise IndexError
    | _ :: _ =>
        Ok (NdArray (replicate (length (shape y) - 1) 1%nat ++ shape d) (data d))
    end
  else nd_diff x.

(** [xp.trapz(y=y, axis=-1, x=x)]:
    [(d * (y[..., 1:] + y[..., :-1]) / 2.0).sum(-1)]. *)
Definition nd_trapz (y x : ndarray) : res ndarray :=
  d ← trapz_spacing y x;
  y1 ← nd_tail_last y;
  y2 ← nd_init_last y;
  s ← nd_binop Rplus y1 y2;
  p ← nd_binop Rmult d s;
  q ← nd_binop Rdiv p (scalar 2);
  nd_sum_last q.

End Nd.
Export Nd.

(** ** Values, the store and the evaluation monad *)

(** A value of the program: a Python number ([int] or [float]), a numpy
    scalar ([float64], what numpy hands back for a result without axes),
    or a reference to an array of the store.  The first two carry a
    number alike; they differ in what [/] does with a zero divisor. *)
Inductive value : Type :=
  | VNum (x : R)
  | VScalar (x : R)
  | VArr (l : nat).

(** Is the value a Python number? *)
Definition pynum (v : value) : bool :=
  match v with
  | VNum _ => true
  | _ => false
  end.

(** Calls to the density primitives of [gwpopulation.utils], recorded in
    the order they are made, with the contents of the array passed. *)
Inductive extcall : Type :=
  | CallBetaDist (xx : ndarray) (alpha beta scale : R)
  | CallTruncnorm (xx : ndarray) (mu sigma high low : R).

Record state : Type := State { heap : list ndarray; calls : list extcall }.

(** State and exceptions: a raised exception keeps the store it was
    raised in. *)
Definition M (A : Type) : Type := state → res A * state.

#[global] Instance M_ret : MRet M := λ A a σ, (Ok a, σ).
#[global] Instance M_bind : MBind M := λ A B k m σ,
  match m σ with
  | (Ok a, σ') => k a σ'
  | (Raise e, σ') => (Raise e, σ')
  end.

Definition lift {A} (r : res A) : M A := λ σ, (r, σ).

Definition alloc (a : ndarray) : M nat := λ σ,
  (Ok (length (heap σ)), State (heap σ ++ [a]) (calls σ)).

Definition load (l : nat) : M ndarray := λ σ,
  match heap σ !! l with
  | Some a => (Ok a, σ)
  | None => (Raise InvalidRef, σ)
  end.

Definition store (l : nat) (a : ndarray) : M unit := λ σ,
  (Ok (), State (<[l := a]> (heap σ)) (calls σ)).

Definition log (c : extcall) : M unit := λ σ,
  (Ok (), State (heap σ) (calls σ ++ [c])).

(** numpy treats a number as an array without axes, and hands a result
    without axes (one entry, shape [[]]) back as a scalar. *)
Definition to_array (v : value) : M ndarray :=
  match v with
  | VNum x => mret (scalar x)
  | VScalar x => mret (scalar x)
  | VArr l => load l
  end.

Definition of_array (a : ndarray) : M value :=
  match shape a, data a with
  | [], [x] => mret (VScalar x)
  | _, _ => l ← alloc a; mret (VArr l)
  end.

(** A binary ufunc of numpy on two values: a new value. *)
Definition np_binop (f : R → R → R) (v1 v2 : value) : M value :=
  a ← to_array v1;
  b ← to_array v2;
  c ← lift (nd_binop f a b);
  of_array c.

(** A unary ufunc of numpy. *)
Definition np_unop (f : R → R) (v : value) : M value :=
  a ← to_array v;
  of_array (nd_map f a).

(** The ufunc behind [op=] on the array at [l]: the result is written
    into that array, which stays the value of the variable. *)
Definition np_inplace (f : R → R → R) (l : nat) (v2 : value) : M value :=
  a ← load l;
  b ← to_array v2;
  c ← lift (nd_ibinop f a b);
  store l c;;
  mret (VArr l).

(** [v1 op v2] for [+], [-] and [*]: Python's own arithmetic between two
    Python numbers, numpy's as soon as one operand is numpy's. *)
Definition py_binop (f : R → R → R) (v1 v2 : value) : M value :=
  match v1, v2 with
  | VNum x, VNum y => mret (VNum (f x y))
  | _, _ => np_binop f v1 v2
  end.

(** [v1 op= v2]: an array is updated in place; a number or a scalar is
    immutable and the variable is rebound to [v1 op v2]. *)
Definition py_ibinop (f : R → R → R) (v1 v2 : value) : M value :=
  match v1 with
  | VArr l => np_inplace f l v2
  | _ => py_binop f v1 v2
  end.

(** [-v] and [v ** n]. *)
Definition py_unop (f : R → R) (v : value) : M value :=
  match v with
  | VNum x => mret (VNum (f x))
  | _ => np_unop f v
  end.

Definition py_add : value → value → M value := py_binop Rplus.
Definition py_sub : value → value → M value := py_binop Rminus.
Definition py_mul : value → value → M value := py_binop Rmult.
Definition py_neg : value → M value := py_unop Ropp.
Definition py_pow (v : value) (n : nat) : M value := py_unop (λ x, (x ^ n)%R) v.
Definition py_imul : value → value → M value := py_ibinop Rmult.

(** [xp.exp(v)]: numpy's, also on a Python number. *)
Definition xp_exp : value → M value := np_unop exp.

Definition xp_linspace (start stop : R) (num : nat) : M value :=
  of_array (nd_linspace start stop num).

Definition xp_meshgrid (x y : value) : M (value * value) :=
  a ← to_array x;
  b ← to_array y;
  g1 ← of_array (nd_meshgrid a b).1;
  g2 ← of_array (nd_meshgrid a b).2;
  mret (g1, g2).

Definition xp_trapz (y x : value) : M value :=
  a ← to_array y;
  b ← to_array x;
  r ← lift (nd_trapz a b);
  of_array r.

(** [dataset[key]] *)
Definition getitem (dataset : gmap string value) (key : string) : M value :=
  lift (match dataset !! key with
        | Some v => Ok v
        | None => Raise (KeyError key)
        end).

#[global] Instance Rlt_decision : RelDecision Rlt := Rlt_dec.
#[global] Instance R_eq_decision : EqDecision R := Req_dec_T.

(** ** What a run of a program means *)

(** The array a value stands for in a store. *)
Definition denote (σ : state) (v : value) : option ndarray :=
  match v with
  | VNum x => Some (scalar x)
  | VScalar x => Some (scalar x)
  | VArr l => heap σ !! l
  end.

(** A value that is not an array of the store [σ]: a number, a scalar,
    or an array allocated later. *)
Definition fresh (σ : state) (v : value) : Prop :=
  match v with
  | VNum _ => True
  | VScalar _ => True
  | VArr l => length (heap σ) ≤ l
  end.

(** [σ'] has every array of [σ], unchanged, and every recorded call of
    [σ], in order; it may have more of both. *)
Definition extends (σ σ' : state) : Prop :=
  heap σ `prefix_of` heap σ' ∧ calls σ `prefix_of` calls σ'.

(** Every entry of the dataset is a number or an array of the store. *)
Definition valid (σ : state) (dataset : gmap string value) : Prop :=
  map_Forall (λ _ v, is_Some (denote σ v)) dataset.

(** Is [dataset[key]] a Python number? *)
Definition py_entry (dataset : gmap string value) (key : string) : bool :=
  match dataset !! key with
  | Some v => pynum v
  | None => false
  end.

(** The contents of [dataset[key]]. *)
Definition lookup_nd (σ : state) (dataset : gmap string value) (key : string)
    : res ndarray :=
  match dataset !! key with
  | None => Raise (KeyError key)
  | Some v =>
      match denote σ v with
      | Some a => Ok a
      | None => Raise InvalidRef
      end
  end.

(** [runs base m σ r]: started in [σ], the program [m] ends in a store
    that extends [base]; it either returns a value that is fresh for
    [base] and stands for the array [a], with [r = Ok a], or raises [e],
    with [r = Raise e]. *)
Definition runs (base : state) (m : M value) (σ : state) (r : res ndarray)
    : Prop :=
  extends base (m σ).2 ∧
  match (m σ).1, r with
  | Ok v, Ok a => fresh base v ∧ denote (m σ).2 v = Some a
  | Raise e, Raise e' => e = e'
  | _, _ => False
  end.

(** [evals m σ r]: [m], run in [σ], computes [r] and leaves every array
    of [σ] as it was. *)
Definition evals (m : M value) (σ : state) (r : res ndarray) : Prop :=
  runs σ m σ r.

(** [frames base m P]: run in any store that extends [base], [m] ends in
    a store that extends [base], and what it returns satisfies [P]. *)
Definition frames {A} (base : state) (m : M A) (P : A → Prop) : Prop :=
  ∀ σ, extends base σ →
    extends base (m σ).2 ∧ ∀ a, (m σ).1 = Ok a → P a.

(** [emits P m]: whatever the store, every call to a primitive that [m]
    makes satisfies [P]. *)
Definition emits {A} (P : extcall → Prop) (m : M A) : Prop :=
  ∀ σ, ∃ made, calls (m σ).2 = calls σ ++ made ∧ Forall P made.

Definition is_beta_dist (c : extcall) : Prop :=
  match c with
  | CallBetaDist _ _ _ _ => True
  | CallTruncnorm _ _ _ _ _ => False
  end.

Definition is_truncnorm (c : extcall) : Prop :=
  match c with
  | CallBetaDist _ _ _ _ => False
  | CallTruncnorm _ _ _ _ _ => True
  end.

Definition no_call (c : extcall) : Prop := False.

(** ** The instance *)

(** The instance state of [GaussianChiEffChiP], as set by [__init__].  No
    method assigns to an attribute after construction, so the instance
    is a record of references that the methods read. *)
Record GaussianChiEffChiP : Type := {
  chi_eff : value;
  chi_p : value;
  chi_eff_grid : value;
  chi_p_grid : value;
  normalization_data : gmap string value
}.

(** ** Sample data for the worked examples *)

(** Unnormalised kernels of the two densities; they stand in for the
    primitives of [gwpopulation.utils] in the examples. *)
Definition kernel_beta (alpha beta scale x : R) : R :=
  (Rpower x (alpha - 1) * Rpower (scale - x) (beta - 1))%R.

Definition kernel_gauss (mu sigma x : R) : R :=
  exp (- (x - mu) ^ 2 / (2 * sigma ^ 2))%R.

Definition kernel_beta_dist (xx : ndarray) (alpha beta scale : R)
    : res ndarray :=
  Ok (nd_map (kernel_beta alpha beta scale) xx).

Definition kernel_truncnorm (xx : ndarray) (mu sigma high low : R)
    : res ndarray :=
  Ok (nd_map (kernel_gauss mu sigma) xx).

(** An entry for the results of numpy's division by zero in the
    examples; any other would do. *)
Definition sample_div_by_zero (x : R) : R := 0%R.

(** Two events: spin magnitudes, cosines of the tilts, and the effective
    spins. *)
Definition sample_a_1 : ndarray := NdArray [2%nat] [0.5; 0.3]%R.
Definition sample_a_2 : ndarray := NdArray [2%nat] [0.25; 0.75]%R.
Definition sample_cos_tilt_1 : ndarray := NdArray [2%nat] [1; 0.5]%R.
Definition sample_cos_tilt_2 : ndarray := NdArray [2%nat] [1; -0.5]%R.
Definition sample_chi_eff : ndarray := NdArray [2%nat] [0; 0.125]%R.
Definition sample_chi_p : ndarray := NdArray [2%nat] [0.5; 0.25]%R.

Definition sample_store : state :=
  State [ sample_a_1; sample_a_2; sample_cos_tilt_1; sample_cos_tilt_2;
          sample_chi_eff; sample_chi_p ] [].

Definition sample_dataset : gmap string value :=
  {[ "a_1" := VArr 0; "a_2" := VArr 1;
     "cos_tilt_1" := VArr 2; "cos_tilt_2" := VArr 3;
     "chi_eff" := VArr 4; "chi_p" := VArr 5 ]}.

(** The instance that [__init__] builds in the sample store, and the
    store it leaves. *)
Definition sample_instance : GaussianChiEffChiP :=
  {| chi_eff := VArr 6;
     chi_p := VArr 7;
     chi_eff_grid := VArr 8;
     chi_p_grid := VArr 9;
     normalization_data := {[ "chi_eff" := VArr 8; "chi_p" := VArr 9 ]} |}.

Definition sample_grid_store : state :=
  let x := nd_linspace (-1) 1 100 in
  let y := nd_linspace 0 1 50 in
  State (heap sample_store ++ [x; y; (nd_meshgrid x y).1; (nd_meshgrid x y).2])
        [].

(** Datasets off the beaten track: arrays of one, two and three entries
    under the keys of the correlated model, a dataset of plain numbers,
    and a dataset with only [a_1]. *)
Definition edge_one : ndarray := NdArray [1%nat] [0.25]%R.
Definition edge_two : ndarray := NdArray [2%nat] [0; 0.125]%R.
Definition edge_three : ndarray := NdArray [3%nat] [0.5; 0.25; 0.75]%R.

Definition edge_store : state := State [edge_one; edge_two; edge_three] [].

Definition dataset_one_two : gmap string value :=
  {[ "chi_eff" := VArr 0; "chi_p" := VArr 1 ]}.

Definition dataset_two_one : gmap string value :=
  {[ "chi_eff" := VArr 1; "chi_p" := VArr 0 ]}.

Definition dataset_two_three : gmap string value :=
  {[ "chi_eff" := VArr 1; "chi_p" := VArr 2 ]}.

Definition dataset_numbers : gmap string value :=
  {[ "chi_eff" := VNum 0; "chi_p" := VNum (1 / 2) ]}.

Definition dataset_a_1_only : gmap string value :=
  {[ "a_1" := VArr 0 ]}.

(** ** The models *)

Section Models.
Local Open Scope R_scope.
Set Default Proof Using "Type".

(** The density primitives of [gwpopulation.utils].  Each is a function
    of the contents of its array argument and of its parameters that
    either raises or yields the contents of a new array.  The parameters
    are in the positional order of [utils]:
    [beta_dist(xx, alpha, beta, scale)] and
    [truncnorm(xx, mu, sigma, high, low)]. *)
Variable beta_dist_impl : ndarray → R → R → R → res ndarray.
Variable truncnorm_impl : ndarray → R → R → R → R → res ndarray.

(** What the model puts for [x / 0.0] in numpy's arithmetic, where the
    floats have [inf], [-inf] or [nan].  Nothing is assumed about it, so
    nothing can be proved about the value of such an entry. *)
Variable div_by_zero : R → R.

(** numpy's [x / y] on [float64]. *)
Definition np_div (x y : R) : R :=
  if decide (y = 0) then div_by_zero x else x / y.

(** [v1 / v2]: between two Python numbers a zero divisor raises
    [ZeroDivisionError]; with a numpy operand the division is numpy's,
    which does not raise. *)
Definition py_truediv (v1 v2 : value) : M value :=
  match v1, v2 with
  | VNum x, VNum y =>
      if decide (y = 0) then lift (Raise ZeroDivisionError)
      else mret (VNum (x / y))
  | _, _ => np_binop np_div v1 v2
  end.

(** [v1 /= v2] *)
Definition py_itruediv (v1 v2 : value) : M value :=
  match v1 with
  | VArr l => np_inplace np_div l v2
  | _ => py_truediv v1 v2
  end.

Definition beta_dist (xx : value) (alpha beta scale : R) : M value :=
  a ← to_array xx;
  log (CallBetaDist a alpha beta scale);;
  r ← lift (beta_dist_impl a alpha beta scale);
  of_array r.

Definition truncnorm (xx : value) (mu sigma high low : R) : M value :=
  a ← to_array xx;
  log (CallTruncnorm a mu sigma high low);;
  r ← lift (truncnorm_impl a mu sigma high low);
  of_array r.

Definition independent_spin_magnitude_beta (dataset : gmap string value)
    (alpha_chi_1 alpha_chi_2 beta_chi_1 beta_chi_2 amax_1 amax_2 : R) : M value :=
  if bool_decide (alpha_chi_1 < 0) || bool_decide (beta_chi_1 < 0)
     || bool_decide (alpha_chi_2 < 0) || bool_decide (beta_chi_2 < 0)
  then mret (VNum 0)
  else
    a_1 ← getitem dataset "a_1";
    p_1 ← beta_dist a_1 alpha_chi_1 beta_chi_1 amax_1;
    a_2 ← getitem dataset "a_2";
    p_2 ← beta_dist a_2 alpha_chi_2 beta_chi_2 amax_2;
    prior ← py_mul p_1 p_2;
    mret prior.

Definition iid_spin_magnitude_beta (dataset : gmap string value)
    (amax alpha_chi beta_chi : R) : M value :=
  independent_spin_magnitude_beta
    dataset alpha_chi alpha_chi beta_chi beta_chi amax amax.

Definition independent_spin_orientation_gaussian_isotropic
    (dataset : gmap string value) (xi_spin sigma_1 sigma_2 : R) : M value :=
  let isotropic := (1 - xi_spin) / 4 in
  cos_tilt_1 ← getitem dataset "cos_tilt_1";
  t_1 ← truncnorm cos_tilt_1 1 sigma_1 1 (-1);
  aligned ← py_mul (VNum xi_spin) t_1;
  cos_tilt_2 ← getitem dataset "cos_tilt_2";
  t_2 ← truncnorm cos_tilt_2 1 sigma_2 1 (-1);
  aligned ← py_mul aligned t_2;
  prior ← py_add (VNum isotropic) aligned;
  mret prior.

Definition iid_spin_orientation_gaussian_isotropic
    (dataset : gmap string value) (xi_spin sigma_spin : R) : M value :=
  independent_spin_orientation_gaussian_isotropic
    dataset xi_spin sigma_spin sigma_spin.

Definition iid_spin (dataset : gmap string value)
    (xi_spin sigma_spin amax alpha_chi beta_chi : R) : M value :=
  orientation ← iid_spin_orientation_gaussian_isotropic dataset xi_spin sigma_spin;
  magnitude ← iid_spin_magnitude_beta dataset amax alpha_chi beta_chi;
  prior ← py_mul orientation magnitude;
  mret prior.

(** [truncnorm(dataset["chi_eff"], mu=..., sigma=..., low=-1, high=1)] *)
Definition gaussian_chi_eff (dataset : gmap string value)
    (mu_chi_eff sigma_chi_eff : R) : M value :=
  xx ← getitem dataset "chi_eff";
  truncnorm xx mu_chi_eff sigma_chi_eff 1 (-1).

(** [truncnorm(dataset["chi_p"], mu=..., sigma=..., low=0, high=1)] *)
Definition gaussian_chi_p (dataset : gmap string value)
    (mu_chi_p sigma_chi_p : R) : M value :=
  xx ← getitem dataset "chi_p";
  truncnorm xx mu_chi_p sigma_chi_p 1 0.

Definition __init__ : M GaussianChiEffChiP :=
  chi_eff ← xp_linspace (-1) 1 100;
  chi_p ← xp_linspace 0 1 50;
  grids ← xp_meshgrid chi_eff chi_p;
  mret {| chi_eff := chi_eff;
          chi_p := chi_p;
          chi_eff_grid := grids.1;
          chi_p_grid := grids.2;
          normalization_data :=
            {[ "chi_eff" := grids.1; "chi_p" := grids.2 ]} |}.

Definition _2d_probability (self : GaussianChiEffChiP)
    (dataset : gmap string value)
    (mu_chi_eff sigma_chi_eff mu_chi_p sigma_chi_p spin_covariance : R)
    : M value :=
  let determinant :=
    sigma_chi_eff ^ 2 * sigma_chi_p ^ 2 * (1 - spin_covariance) in
  xx ← getitem dataset "chi_eff";
  t ← py_sub (VNum mu_chi_eff) xx;
  chi_eff_residual ← py_mul t (VNum sigma_chi_eff);
  xx ← getitem dataset "chi_p";
  t ← py_sub (VNum mu_chi_p) xx;
  chi_p_resiudal ← py_mul t (VNum sigma_chi_p);
  sq_eff ← py_pow chi_eff_residual 2;
  sq_p ← py_pow chi_p_resiudal 2;
  acc ← py_add sq_eff sq_p;
  t ← py_mul (VNum 2) chi_eff_residual;
  t ← py_mul t chi_p_resiudal;
  t ← py_mul t (VNum spin_covariance);
  acc ← py_sub acc t;
  acc ← py_neg acc;
  acc ← py_truediv acc (VNum 2);
  acc ← py_truediv acc (VNum determinant);
  prob ← xp_exp acc;
  mret prob.

Definition _normalization (self : GaussianChiEffChiP)
    (mu_chi_eff sigma_chi_eff mu_chi_p sigma_chi_p spin_covariance : R)
    : M value :=
  prob ← _2d_probability self (normalization_data self)
            mu_chi_eff sigma_chi_eff mu_chi_p sigma_chi_p spin_covariance;
  inner ← xp_trapz prob (chi_p self);
  xp_trapz inner (chi_eff self).

Definition __call__ (self : GaussianChiEffChiP) (dataset : gmap string value)
    (mu_chi_eff sigma_chi_eff mu_chi_p sigma_chi_p spin_covariance : R)
    : M value :=
  if bool_decide (spin_covariance = 0) then
    prob ← gaussian_chi_eff dataset mu_chi_eff sigma_chi_eff;
    factor ← gaussian_chi_p dataset mu_chi_p sigma_chi_p;
    prob ← py_imul prob factor;
    mret prob
  else
    prob ← _2d_probability self dataset
              mu_chi_eff sigma_chi_eff mu_chi_p sigma_chi_p spin_covariance;
    normalization ← _normalization self
              mu_chi_eff sigma_chi_eff mu_chi_p sigma_chi_p spin_covariance;
    prob ← py_itruediv prob normalization;
    mret prob.

(** *** The instance over time *)

(** What can happen to the store while an instance is alive: a call of
    the instance with any dataset and hyper-parameters, or the caller
    building one more array. *)
Inductive step (self : GaussianChiEffChiP) : state → state → Prop :=
  | step_call σ dataset mu_chi_eff sigma_chi_eff mu_chi_p sigma_chi_p
      spin_covariance :
      step self σ
        (__call__ self dataset mu_chi_eff sigma_chi_eff mu_chi_p sigma_chi_p
           spin_covariance σ).2
  | step_alloc σ a :
      step self σ (State (heap σ ++ [a]) (calls σ)).

Inductive reachable : GaussianChiEffChiP → state → Prop :=
  | reach_init σ0 self σ :
      __init__ σ0 = (Ok self, σ) → reachable self σ
  | reach_step self σ σ' :
      reachable self σ → step self σ σ' → reachable self σ'.

(** The grid as [__init__] builds it. *)
Definition grid_built (self : GaussianChiEffChiP) (σ : state) : Prop :=
  let x := nd_linspace (-1) 1 100 in
  let y := nd_linspace 0 1 50 in
  denote σ (chi_eff self) = Some x ∧
  denote σ (chi_p self) = Some y ∧
  denote σ (chi_eff_grid self) = Some (nd_meshgrid x y).1 ∧
  denote σ (chi_p_grid self) = Some (nd_meshgrid x y).2 ∧
  normalization_data self =
    {[ "chi_eff" := chi_eff_grid self; "chi_p" := chi_p_grid self ]}.

(** The grid as the specification describes it: [n] evenly spaced
    points from [lo] to [hi], and the outer-product grid of two
    coordinate sequences, with one row per entry of [y]. *)
Definition evenly_spaced (lo hi : R) (n : nat) (x : ndarray) : Prop :=
  shape x = [n] ∧ length (data x) = n ∧
  ∀ i, (i < n)%nat →
    data x !! i = Some (lo + INR i * (hi - lo) / INR (n - 1)).

Definition outer_product (x y gx gy : ndarray) : Prop :=
  let nx := length (data x) in
  let ny := length (data y) in
  shape gx = [ny; nx] ∧ shape gy = [ny; nx] ∧ wf gx ∧ wf gy ∧
  ∀ i j, (i < ny)%nat → (j < nx)%nat →
    data gx !! (i * nx + j)%nat = data x !! j ∧
    data gy !! (i * nx + j)%nat = data y !! i.

Definition construction_grid (self : GaussianChiEffChiP) (σ : state) : Prop :=
  ∃ x y gx gy,
    denote σ (chi_eff self) = Some x ∧
    denote σ (chi_p self) = Some y ∧
    denote σ (chi_eff_grid self) = Some gx ∧
    denote σ (chi_p_grid self) = Some gy ∧
    evenly_spaced (-1) 1 100 x ∧
    evenly_spaced 0 1 50 y ∧
    outer_product x y gx gy ∧
    normalization_data self =
      {[ "chi_eff" := chi_eff_grid self; "chi_p" := chi_p_grid self ]}.

(** The four arrays of the instance are the same in [σ'] as in [σ]. *)
Definition same_grid (self : GaussianChiEffChiP) (σ σ' : state) : Prop :=
  denote σ' (chi_eff self) = denote σ (chi_eff self) ∧
  denote σ' (chi_p self) = denote σ (chi_p self) ∧
  denote σ' (chi_eff_grid self) = denote σ (chi_eff_grid self) ∧
  denote σ' (chi_p_grid self) = denote σ (chi_p_grid self).

(** [m] does not change an array that exists when it starts, and so
    none of the arrays of [dataset]. *)
Definition read_only (dataset : gmap string value) (m : M value) : Prop :=
  ∀ σ, extends σ (m σ).2 ∧
    ∀ key v a, dataset !! key = Some v → denote σ v = Some a →
      denote (m σ).2 v = Some a.

(** A call with a non-zero covariance on a new instance. *)
Definition correlated_call_example : M value :=
  self ← __init__;
  __call__ self sample_dataset 0 1 (1 / 2) 1 (1 / 2).

(** *** The models on array contents

    What each model computes from the contents of the dataset entries it
    reads; [independent_spin_magnitude_beta_evals] and its companions
    below prove that the programs above compute exactly this. *)

Definition independent_spin_magnitude_beta_nd (a_1 a_2 : res ndarray)
    (alpha_chi_1 alpha_chi_2 beta_chi_1 beta_chi_2 amax_1 amax_2 : R)
    : res ndarray :=
  if bool_decide (alpha_chi_1 < 0) || bool_decide (beta_chi_1 < 0)
     || bool_decide (alpha_chi_2 < 0) || bool_decide (beta_chi_2 < 0)
  then Ok (scalar 0)
  else
    x_1 ← a_1;
    p_1 ← beta_dist_impl x_1 alpha_chi_1 beta_chi_1 amax_1;
    x_2 ← a_2;
    p_2 ← beta_dist_impl x_2 alpha_chi_2 beta_chi_2 amax_2;
    nd_binop Rmult p_1 p_2.

Definition independent_spin_orientation_gaussian_isotropic_nd
    (cos_tilt_1 cos_tilt_2 : res ndarray) (xi_spin sigma_1 sigma_2 : R)
    : res ndarray :=
  x_1 ← cos_tilt_1;
  t_1 ← truncnorm_impl x_1 1 sigma_1 1 (-1);
  aligned ← nd_binop Rmult (scalar xi_spin) t_1;
  x_2 ← cos_tilt_2;
  t_2 ← truncnorm_impl x_2 1 sigma_2 1 (-1);
  aligned ← nd_binop Rmult aligned t_2;
  nd_binop Rplus (scalar ((1 - xi_spin) / 4)) aligned.

Definition gaussian_chi_eff_nd (chi_eff : res ndarray)
    (mu_chi_eff sigma_chi_eff : R) : res ndarray :=
  xx ← chi_eff; truncnorm_impl xx mu_chi_eff sigma_chi_eff 1 (-1).

Definition gaussian_chi_p_nd (chi_p : res ndarray)
    (mu_chi_p sigma_chi_p : R) : res ndarray :=
  xx ← chi_p; truncnorm_impl xx mu_chi_p sigma_chi_p 1 0.

(** [py] tells whether [chi_eff] and [chi_p] are both Python numbers:
    then, and only then, the division by a determinant 0 raises. *)
Definition _2d_probability_nd (py : bool) (chi_eff chi_p : res ndarray)
    (mu_chi_eff sigma_chi_eff mu_chi_p sigma_chi_p spin_covariance : R)
    : res ndarray :=
  let determinant :=
    sigma_chi_eff ^ 2 * sigma_chi_p ^ 2 * (1 - spin_covariance) in
  xx ← chi_eff;
  t ← nd_binop Rminus (scalar mu_chi_eff) xx;
  chi_eff_residual ← nd_binop Rmult t (scalar sigma_chi_eff);
  xx ← chi_p;
  t ← nd_binop Rminus (scalar mu_chi_p) xx;
  chi_p_resiudal ← nd_binop Rmult t (scalar sigma_chi_p);
  acc ← nd_binop Rplus (nd_map (λ x, x ^ 2) chi_eff_residual)
                       (nd_map (λ x, x ^ 2) chi_p_resiudal);
  t ← nd_binop Rmult (scalar 2) chi_eff_residual;
  t ← nd_binop Rmult t chi_p_resiudal;
  t ← nd_binop Rmult t (scalar spin_covariance);
  acc ← nd_binop Rminus acc t;
  acc ← nd_binop np_div (nd_map Ropp acc) (scalar 2);
  acc ← (if py && bool_decide (determinant = 0)
         then Raise ZeroDivisionError
         else nd_binop np_div acc (scalar determinant));
  Ok (nd_map exp acc).

(** *** The densities as the specification writes them *)

(** [TruncGaussian(x; mean, sigma, bounds=[low, high])] and
    [BetaDensity(x; alpha, beta, scale)]: the primitives, with the
    bounds named. *)
Definition TruncGaussian (xx : ndarray) (mean sigma low high : R)
    : res ndarray :=
  truncnorm_impl xx mean sigma high low.

Definition BetaDensity (xx : ndarray) (alpha beta scale : R) : res ndarray :=
  beta_dist_impl xx alpha beta scale.

(** The unnormalised bivariate form at one pair [(chi_eff, chi_p)].
    The quotient is that of the reals: the form is the one of the
    specification where [det] is not 0, and the theorems use it only
    there. *)
Definition spec_2d_probability
    (mu_chi_eff sigma_chi_eff mu_chi_p sigma_chi_p spin_covariance : R)
    (chi_eff chi_p : R) : R :=
  let r_eff := (mu_chi_eff - chi_eff) * sigma_chi_eff in
  let r_p := (mu_chi_p - chi_p) * sigma_chi_p in
  let det := sigma_chi_eff ^ 2 * sigma_chi_p ^ 2 * (1 - spin_covariance) in
  exp (- (r_eff ^ 2 + r_p ^ 2 - 2 * r_eff * r_p * spin_covariance) / (2 * det)).

(** The isotropic/aligned mixture at one pair of truncated-Gaussian
    densities. *)
Definition spec_mixture (xi_spin : R) (t_1 t_2 : R) : R :=
  (1 - xi_spin) / 4 + xi_spin * t_1 * t_2.

(** ** Facts about arrays *)

Implicit Types (s : list nat) (a b : ndarray).

Lemma broadcast_dim_same d : broadcast_dim d d = Some d.
Proof. unfold broadcast_dim. by rewrite decide_True. Qed.

Lemma broadcast_rev_same s : broadcast_rev s s = Some s.
Proof.
  induction s as [|d s IH]; [done|].
  simpl. rewrite broadcast_dim_same. simpl. by rewrite IH.
Qed.

Lemma broadcast_rev_nil_r s : broadcast_rev s [] = Some s.
Proof. by destruct s. Qed.

Lemma broadcast_shapes_same s : broadcast_shapes s s = Some s.
Proof.
  unfold broadcast_shapes. rewrite broadcast_rev_same. simpl.
  by rewrite reverse_involutive.
Qed.

Lemma broadcast_shapes_nil_l s : broadcast_shapes [] s = Some s.
Proof.
  unfold broadcast_shapes. simpl. by rewrite reverse_involutive.
Qed.

Lemma broadcast_shapes_nil_r s : broadcast_shapes s [] = Some s.
Proof.
  unfold broadcast_shapes. change (reverse []) with (@nil nat).
  rewrite broadcast_rev_nil_r. simpl. by rewrite reverse_involutive.
Qed.

Lemma rows_length k n (l : list R) : length (rows k n l) = k.
Proof. revert l. induction k; intros; simpl; [done|]. by rewrite IHk. Qed.

Lemma rows_each k n (l : list R) :
  length l = (k * n)%nat → Forall (λ r, length r = n) (rows k n l).
Proof.
  revert l. induction k as [|k IH]; intros l Hl; simpl; [constructor|].
  constructor.
  - rewrite length_take. simpl in Hl. lia.
  - apply IH. rewrite length_drop. simpl in Hl. lia.
Qed.

Lemma concat_rows k n (l : list R) : length l = (k * n)%nat → concat (rows k n l) = l.
Proof.
  revert l. induction k as [|k IH]; intros l Hl; simpl.
  - by destruct l.
  - rewrite IH; [apply take_drop|]. rewrite length_drop. simpl in Hl. lia.
Qed.

Lemma map_fixed (f : list R → list R) (ls : list (list R)) :
  Forall (λ r, f r = r) ls → map f ls = ls.
Proof. induction 1 as [|r ls Hr _ IH]; simpl; congruence. Qed.

Lemma broadcast_data_same s (l : list R) :
  length l = size_of s → broadcast_data s s l = l.
Proof.
  revert l. induction s as [|d s IH]; intros l Hl; [done|].
  simpl. rewrite decide_False by lia. rewrite decide_True by done.
  simpl in Hl. rewrite map_fixed; [by apply concat_rows|].
  eapply Forall_impl; [by apply rows_each|]. intros r Hr. by apply IH.
Qed.

Lemma concat_replicate_replicate (k n : nat) (x : R) :
  concat (replicate k (replicate n x)) = replicate (k * n) x.
Proof.
  induction k as [|k IH]; [done|].
  simpl. rewrite IH. by rewrite replicate_add.
Qed.

Lemma broadcast_data_scalar (t : list nat) x :
  broadcast_data [] t [x] = replicate (size_of t) x.
Proof.
  induction t as [|d t IH]; [done|].
  cbn [broadcast_data]. case_decide; [|simpl in *; lia].
  rewrite IH. apply concat_replicate_replicate.
Qed.

Lemma zip_with_replicate_l (f : R → R → R) n x (l : list R) :
  length l = n → zip_with f (replicate n x) l = map (f x) l.
Proof.
  intros <-. induction l as [|y l IH]; [done|]. simpl. by rewrite IH.
Qed.

Lemma zip_with_replicate_r (f : R → R → R) n y (l : list R) :
  length l = n → zip_with f l (replicate n y) = map (λ x, f x y) l.
Proof.
  intros <-. induction l as [|x l IH]; [done|]. simpl. by rewrite IH.
Qed.

Lemma nd_binop_same f a b :
  wf a → wf b → shape a = shape b → nd_binop f a b = Ok (nd_zip f a b).
Proof.
  intros Ha Hb Hs. unfold nd_binop, nd_zip. rewrite <- Hs.
  rewrite broadcast_shapes_same, !broadcast_data_same; try done.
  by rewrite Hs.
Qed.

Lemma nd_ibinop_same f a b :
  wf a → wf b → shape a = shape b → nd_ibinop f a b = Ok (nd_zip f a b).
Proof.
  intros Ha Hb Hs. unfold nd_ibinop, nd_zip. rewrite <- Hs.
  rewrite broadcast_shapes_same, decide_True by done.
  rewrite !broadcast_data_same; try done. by rewrite Hs.
Qed.

Lemma nd_binop_scalar_l f x b :
  wf b → nd_binop f (scalar x) b = Ok (nd_map (f x) b).
Proof.
  intros Hb. unfold nd_binop, nd_map, scalar. cbn [shape data].
  rewrite broadcast_shapes_nil_l, broadcast_data_scalar.
  rewrite broadcast_data_same by done.
  by rewrite zip_with_replicate_l.
Qed.

Lemma nd_binop_scalar_r f a y :
  wf a → nd_binop f a (scalar y) = Ok (nd_map (λ x, f x y) a).
Proof.
  intros Ha. unfold nd_binop, nd_map, scalar. cbn [shape data].
  rewrite broadcast_shapes_nil_r, broadcast_data_scalar.
  rewrite broadcast_data_same by done.
  by rewrite zip_with_replicate_r.
Qed.

Lemma wf_scalar x : wf (scalar x).
Proof. done. Qed.

Lemma wf_nd_map f a : wf a → wf (nd_map f a).
Proof. unfold wf, nd_map. simpl. by rewrite length_map. Qed.

Lemma wf_nd_zip f a b : wf a → wf b → shape a = shape b → wf (nd_zip f a b).
Proof.
  unfold wf, nd_zip. simpl. intros Ha Hb Hs.
  rewrite length_zip_with. rewrite Ha, Hb, Hs. lia.
Qed.


(** *** The array operations on small inputs *)

Example broadcast_shapes_column_row :
  broadcast_shapes [2; 1]%nat [3%nat] = Some [2; 3]%nat.
Proof. reflexivity. Qed.

Example broadcast_shapes_mismatch :
  broadcast_shapes [1; 49]%nat [50; 99]%nat = None.
Proof. reflexivity. Qed.

Example nd_binop_column_row (p q x y z : R) :
  nd_binop Rplus (NdArray [2; 1]%nat [p; q]) (NdArray [3%nat] [x; y; z])
  = Ok (NdArray [2; 3]%nat [p + x; p + y; p + z; q + x; q + y; q + z]%R).
Proof. reflexivity. Qed.

Example nd_ibinop_grows (p x y z : R) :
  nd_ibinop Rmult (NdArray [1%nat] [p]) (NdArray [3%nat] [x; y; z])
  = Raise ValueError.
Proof. reflexivity. Qed.

Example nd_meshgrid_2_2 (p q r s : R) :
  nd_meshgrid (NdArray [2%nat] [p; q]) (NdArray [2%nat] [r; s])
  = (NdArray [2; 2]%nat [p; q; p; q], NdArray [2; 2]%nat [r; r; s; s]).
Proof. reflexivity. Qed.

Example nd_trapz_line (x0 x1 x2 y0 y1 y2 : R) :
  nd_trapz (NdArray [3%nat] [y0; y1; y2]) (NdArray [3%nat] [x0; x1; x2])
  = Ok (scalar ((x1 - x0) * (y1 + y0) / 2
                + ((x2 - x1) * (y2 + y1) / 2 + 0))%R).
Proof. reflexivity. Qed.

Example nd_trapz_rows (x0 x1 x2 p q r s t u : R) :
  nd_trapz (NdArray [2; 3]%nat [p; q; r; s; t; u])
           (NdArray [3%nat] [x0; x1; x2])
  = Ok (NdArray [2%nat]
          [ (x1 - x0) * (q + p) / 2 + ((x2 - x1) * (r + q) / 2 + 0);
            (x1 - x0) * (t + s) / 2 + ((x2 - x1) * (u + t) / 2 + 0) ]%R).
Proof. reflexivity. Qed.

Example nd_trapz_wrong_abscissae (x0 x1 x2 x3 p q r s t u : R) :
  nd_trapz (NdArray [2; 3]%nat [p; q; r; s; t; u])
           (NdArray [4%nat] [x0; x1; x2; x3])
  = Raise ValueError.
Proof. reflexivity. Qed.

(** ** Facts about stores and runs *)

Implicit Types (σ base : state) (v : value) (dataset : gmap string value).

Lemma extends_refl σ : extends σ σ.
Proof. by split. Qed.

Lemma extends_trans σ1 σ2 σ3 : extends σ1 σ2 → extends σ2 σ3 → extends σ1 σ3.
Proof. intros [? ?] [? ?]. split; by etrans. Qed.

Lemma extends_length σ σ' : extends σ σ' → length (heap σ) ≤ length (heap σ').
Proof. intros [H _]. by apply prefix_length. Qed.

Lemma denote_extends σ σ' v a :
  extends σ σ' → denote σ v = Some a → denote σ' v = Some a.
Proof.
  intros [H _]. destruct v as [x|x|l]; simpl; [done|done|].
  intros Hl. by eapply prefix_lookup_Some.
Qed.

Lemma fresh_extends σ σ' v : extends σ σ' → fresh σ' v → fresh σ v.
Proof.
  intros H. destruct v as [x|x|l]; simpl; [done|done|].
  apply extends_length in H. lia.
Qed.

Lemma valid_extends σ σ' dataset :
  extends σ σ' → valid σ dataset → valid σ' dataset.
Proof.
  intros H Hv k v Hk. destruct (Hv k v Hk) as [a Ha].
  exists a. by eapply denote_extends.
Qed.

Lemma lookup_nd_extends σ σ' dataset key :
  extends σ σ' → valid σ dataset →
  lookup_nd σ' dataset key = lookup_nd σ dataset key.
Proof.
  intros H Hv. unfold lookup_nd.
  destruct (dataset !! key) as [v|] eqn:Hk; [|done].
  destruct (Hv key v Hk) as [a Ha].
  by rewrite Ha, (denote_extends _ _ _ _ H Ha).
Qed.

Lemma extends_alloc σ a : extends σ (State (heap σ ++ [a]) (calls σ)).
Proof. split; simpl; [by apply prefix_app_r|done]. Qed.

Lemma extends_log σ c : extends σ (State (heap σ) (calls σ ++ [c])).
Proof. split; simpl; [done|by apply prefix_app_r]. Qed.

Lemma extends_store base σ l a :
  extends base σ → length (heap base) ≤ l →
  extends base (State (<[l:=a]> (heap σ)) (calls σ)).
Proof.
  intros [[k Hk] Hc] Hl. split; simpl; [|done].
  rewrite Hk, insert_app_r_alt by done. by apply prefix_app_r.
Qed.

Lemma bind_run {A B} (m : M A) (k : A → M B) σ :
  (m ≫= k) σ =
  match m σ with
  | (Ok a, σ') => k a σ'
  | (Raise e, σ') => (Raise e, σ')
  end.
Proof. done. Qed.

Lemma to_array_run σ v a : denote σ v = Some a → to_array v σ = (Ok a, σ).
Proof.
  destruct v as [x|x|l]; simpl.
  - by intros [= <-].
  - by intros [= <-].
  - intros H. unfold load. by rewrite H.
Qed.

Lemma runs_of_evals base m σ r : extends base σ → evals m σ r → runs base m σ r.
Proof.
  intros Hb [He Hr]. split; [by eapply extends_trans|].
  destruct (m σ).1, r; try done.
  destruct Hr as [Hf Hd]. split; [by eapply fresh_extends|done].
Qed.

Lemma runs_det base m σ r r' : runs base m σ r → runs base m σ r' → r = r'.
Proof.
  intros [_ H] [_ H']. destruct (m σ).1, r, r'; try done.
  - destruct H as [_ H], H' as [_ H']. congruence.
  - congruence.
Qed.

Lemma runs_bind base σ (m : M value) (k : value → M value) r1 K :
  extends base σ → evals m σ r1 →
  (∀ v a σ', extends σ σ' → fresh σ v → denote σ' v = Some a → r1 = Ok a →
     runs base (k v) σ' (K a)) →
  runs base (m ≫= k) σ (r1 ≫= K).
Proof.
  intros Hb [He Hr] Hk. unfold runs. rewrite bind_run.
  destruct (m σ) as [[v|e] σ'] eqn:E; simpl in *.
  - destruct r1 as [a|e']; [|done]. destruct Hr as [Hf Hd].
    by apply (Hk v a σ').
  - destruct r1 as [a|e']; [done|]. subst e'. simpl.
    split; [by eapply extends_trans|done].
Qed.

Lemma evals_bind σ (m : M value) (k : value → M value) r1 K :
  evals m σ r1 →
  (∀ v a σ', extends σ σ' → fresh σ v → denote σ' v = Some a → r1 = Ok a →
     runs σ (k v) σ' (K a)) →
  evals (m ≫= k) σ (r1 ≫= K).
Proof. apply runs_bind, extends_refl. Qed.

Lemma runs_bind_ret base (m : M value) σ r :
  runs base m σ r → runs base (m ≫= mret) σ r.
Proof.
  intros H. unfold runs. rewrite bind_run.
  unfold runs in H. by destruct (m σ) as [[v|e] σ'].
Qed.

Lemma runs_getitem base σ dataset key (k : value → M value) K :
  extends base σ → valid base dataset →
  (∀ v a, dataset !! key = Some v → denote σ v = Some a → runs base (k v) σ (K a)) →
  runs base (getitem dataset key ≫= k) σ (lookup_nd base dataset key ≫= K).
Proof.
  intros Hb Hv Hk. unfold runs, lookup_nd. rewrite bind_run.
  unfold getitem, lift.
  destruct (dataset !! key) as [v|] eqn:Hd; simpl; [|done].
  destruct (Hv key v Hd) as [a Ha]. rewrite Ha. simpl.
  apply Hk; [done|]. by eapply denote_extends.
Qed.

Lemma evals_of_array a σ : evals (of_array a) σ (Ok a).
Proof.
  assert (evals (l ← alloc a; mret (VArr l)) σ (Ok a)) as Halloc.
  { split; simpl; [apply extends_alloc|].
    split; [done|]. by rewrite lookup_app_r, Nat.sub_diag. }
  unfold of_array. by destruct a as [[|d s] [|x [|y l]]].
Qed.

Lemma evals_lift_of_array (r : res ndarray) σ :
  evals (c ← lift r; of_array c) σ r.
Proof.
  destruct r as [c|e].
  - apply (evals_of_array c σ).
  - split; simpl; [apply extends_refl|done].
Qed.

Lemma evals_np_binop f v1 v2 a b σ :
  denote σ v1 = Some a → denote σ v2 = Some b →
  evals (np_binop f v1 v2) σ (nd_binop f a b).
Proof.
  intros Ha Hb. unfold np_binop, evals, runs.
  rewrite !bind_run, (to_array_run _ _ _ Ha).
  rewrite !bind_run, (to_array_run _ _ _ Hb).
  apply evals_lift_of_array.
Qed.

Lemma evals_np_unop f v a σ :
  denote σ v = Some a → evals (np_unop f v) σ (Ok (nd_map f a)).
Proof.
  intros Ha. unfold np_unop, evals, runs.
  rewrite !bind_run, (to_array_run _ _ _ Ha). apply evals_of_array.
Qed.

Lemma evals_num x σ : evals (mret (VNum x)) σ (Ok (scalar x)).
Proof. split; [apply extends_refl|done]. Qed.

(** Python's arithmetic on two numbers and numpy's on two arrays without
    axes give the same number. *)
Lemma evals_binop f v1 v2 a b σ :
  denote σ v1 = Some a → denote σ v2 = Some b →
  evals (py_binop f v1 v2) σ (nd_binop f a b).
Proof.
  intros Ha Hb.
  destruct v1 as [x|x|l], v2 as [y|y|m];
    try (by apply evals_np_binop).
  simpl in Ha, Hb. injection Ha as <-. injection Hb as <-.
  apply evals_num.
Qed.

Lemma evals_unop f v a σ :
  denote σ v = Some a → evals (py_unop f v) σ (Ok (nd_map f a)).
Proof.
  intros Ha. destruct v as [x|x|l]; try (by apply evals_np_unop).
  simpl in Ha. injection Ha as <-. apply evals_num.
Qed.

Lemma evals_trapz vy vx a b σ :
  denote σ vy = Some a → denote σ vx = Some b →
  evals (xp_trapz vy vx) σ (nd_trapz a b).
Proof.
  intros Ha Hb. unfold xp_trapz, evals, runs.
  rewrite !bind_run, (to_array_run _ _ _ Ha).
  rewrite !bind_run, (to_array_run _ _ _ Hb).
  apply evals_lift_of_array.
Qed.

(** An update in place of an array that is fresh for [base]. *)
Lemma runs_ibinop base f v1 v2 a b c σ :
  extends base σ → fresh base v1 →
  denote σ v1 = Some a → denote σ v2 = Some b →
  nd_binop f a b = Ok c → nd_ibinop f a b = Ok c →
  runs base (py_ibinop f v1 v2) σ (Ok c).
Proof.
  intros Hb Hf Ha Hv2 Hbin Hibin. destruct v1 as [x|x|l].
  - cbn [py_ibinop]. rewrite <- Hbin. by apply runs_of_evals, evals_binop.
  - cbn [py_ibinop]. rewrite <- Hbin. by apply runs_of_evals, evals_binop.
  - cbn [py_ibinop denote fresh] in *. unfold np_inplace, runs.
    rewrite !bind_run. unfold load. rewrite Ha.
    rewrite !bind_run, (to_array_run _ _ _ Hv2).
    rewrite !bind_run. unfold lift. rewrite Hibin. simpl.
    split; [by apply extends_store|].
    split; [done|]. apply list_lookup_insert_eq. by eapply lookup_lt_Some.
Qed.

(** *** Frames *)

Lemma frames_ret {A} base (x : A) (P : A → Prop) : P x → frames base (mret x) P.
Proof. intros HP σ Hσ. split; [done|]. by intros x' [= <-]. Qed.

Lemma frames_bind {A B} base (m : M A) (k : A → M B) P Q :
  frames base m P → (∀ x, P x → frames base (k x) Q) →
  frames base (m ≫= k) Q.
Proof.
  intros Hm Hk σ Hσ. rewrite bind_run.
  destruct (Hm σ Hσ) as [He HP]. destruct (m σ) as [[x|e] σ']; simpl in *.
  - by apply Hk; [apply HP|].
  - by split.
Qed.

Lemma frames_weaken {A} base (m : M A) (P Q : A → Prop) :
  frames base m P → (∀ x, P x → Q x) → frames base m Q.
Proof.
  intros Hm HPQ σ Hσ. destruct (Hm σ Hσ) as [He HP]. split; [done|].
  intros x Hx. by apply HPQ, HP.
Qed.

Lemma frames_lift {A} base (r : res A) : frames base (lift r) (λ _, True).
Proof. intros σ Hσ. by split. Qed.

Lemma frames_getitem base dataset key :
  frames base (getitem dataset key) (λ _, True).
Proof. apply frames_lift. Qed.

Lemma frames_to_array base v : frames base (to_array v) (λ _, True).
Proof.
  intros σ Hσ. destruct v as [x|x|l]; simpl; [done|done|].
  unfold load. by destruct (heap σ !! l).
Qed.

Lemma frames_log base c : frames base (log c) (λ _, True).
Proof.
  intros σ Hσ. split; [|done]. simpl.
  eapply extends_trans; [done|apply extends_log].
Qed.

Lemma frames_of_array base a : frames base (of_array a) (fresh base).
Proof.
  intros σ Hσ. destruct (evals_of_array a σ) as [He Hr].
  split; [by eapply extends_trans|].
  intros v Hv. rewrite Hv in Hr. destruct Hr as [Hf _].
  by eapply fresh_extends.
Qed.

Lemma frames_np_binop base f v1 v2 :
  frames base (np_binop f v1 v2) (fresh base).
Proof.
  unfold np_binop.
  eapply frames_bind; [apply frames_to_array|intros a _].
  eapply frames_bind; [apply frames_to_array|intros b _].
  eapply frames_bind; [apply frames_lift|intros c _].
  apply frames_of_array.
Qed.

Lemma frames_np_unop base f v : frames base (np_unop f v) (fresh base).
Proof.
  unfold np_unop.
  eapply frames_bind; [apply frames_to_array|intros a _].
  apply frames_of_array.
Qed.

Lemma frames_binop base f v1 v2 : frames base (py_binop f v1 v2) (fresh base).
Proof.
  destruct v1 as [x|x|l], v2 as [y|y|m];
    try apply frames_np_binop.
  by apply frames_ret.
Qed.

Lemma frames_unop base f v : frames base (py_unop f v) (fresh base).
Proof.
  destruct v as [x|x|l]; try apply frames_np_unop. by apply frames_ret.
Qed.

Lemma frames_trapz base vy vx : frames base (xp_trapz vy vx) (fresh base).
Proof.
  unfold xp_trapz.
  eapply frames_bind; [apply frames_to_array|intros a _].
  eapply frames_bind; [apply frames_to_array|intros b _].
  eapply frames_bind; [apply frames_lift|intros c _].
  apply frames_of_array.
Qed.

Lemma frames_store base l a :
  length (heap base) ≤ l → frames base (store l a) (λ _, True).
Proof. intros Hl σ Hσ. split; [|done]. by apply extends_store. Qed.

Lemma frames_np_inplace base f (l : nat) v2 :
  length (heap base) ≤ l → frames base (np_inplace f l v2) (fresh base).
Proof.
  intros Hf. unfold np_inplace.
  eapply frames_bind; [apply (frames_to_array base (VArr l))|intros a _].
  eapply frames_bind; [apply frames_to_array|intros b _].
  eapply frames_bind; [apply frames_lift|intros c _].
  eapply frames_bind; [by apply frames_store|intros _ _].
  by apply frames_ret.
Qed.

Lemma frames_ibinop base f v1 v2 :
  fresh base v1 → frames base (py_ibinop f v1 v2) (fresh base).
Proof.
  intros Hf. destruct v1 as [x|x|l]; try apply frames_binop.
  by apply frames_np_inplace.
Qed.

Lemma frames_runs base (m : M value) σ :
  frames base m (fresh base) → extends base σ → extends base (m σ).2.
Proof. intros H Hσ. by destruct (H σ Hσ). Qed.

(** *** Division *)

Lemma np_div_nonzero x y : y ≠ 0%R → np_div x y = (x / y)%R.
Proof. intros Hy. unfold np_div. by rewrite decide_False. Qed.

(** [v / y] for a Python number [y]: a Python number divided by 0 raises,
    everything else is divided entry by entry. *)
Lemma evals_truediv_num v1 (y : R) a σ :
  denote σ v1 = Some a →
  evals (py_truediv v1 (VNum y)) σ
        (if pynum v1 && bool_decide (y = 0%R)
         then Raise ZeroDivisionError
         else nd_binop np_div a (scalar y)).
Proof.
  intros Ha. destruct v1 as [x|x|l]; cbn [pynum andb].
  - simpl in Ha. injection Ha as <-. cbn [py_truediv].
    case_bool_decide as Hy.
    + rewrite decide_True by done. split; [apply extends_refl|done].
    + rewrite decide_False by done.
      replace (nd_binop np_div (scalar x) (scalar y))
        with (Ok (scalar (x / y))); [apply evals_num|].
      unfold nd_binop, scalar. cbn. by rewrite np_div_nonzero.
  - by apply evals_np_binop.
  - by apply evals_np_binop.
Qed.

Lemma evals_truediv_nonzero v1 (y : R) a σ :
  y ≠ 0%R → denote σ v1 = Some a →
  evals (py_truediv v1 (VNum y)) σ (nd_binop np_div a (scalar y)).
Proof.
  intros Hy Ha. pose proof (evals_truediv_num v1 y a σ Ha) as H.
  by rewrite bool_decide_eq_false_2, andb_false_r in H.
Qed.

Lemma frames_raise {A} base e (P : A → Prop) :
  frames base (lift (Raise e)) P.
Proof. intros σ Hσ. split; [done|]. by intros a [=]. Qed.

Lemma frames_truediv base v1 v2 : frames base (py_truediv v1 v2) (fresh base).
Proof.
  destruct v1 as [x|x|l], v2 as [y|y|m];
    try apply frames_np_binop.
  cbn [py_truediv]. case_decide.
  - apply frames_raise.
  - by apply frames_ret.
Qed.

Lemma frames_itruediv base v1 v2 :
  fresh base v1 → frames base (py_itruediv v1 v2) (fresh base).
Proof.
  intros Hf. destruct v1 as [x|x|l]; try apply frames_truediv.
  by apply frames_np_inplace.
Qed.

(** *** Python numbers and numpy values

    The result of an operation is a Python number only if all its
    operands are. *)

Lemma of_array_kind a σ v : (of_array a σ).1 = Ok v → pynum v = false.
Proof.
  unfold of_array. destruct a as [[|d s] [|x [|y l]]]; simpl; by intros [= <-].
Qed.

Lemma np_binop_kind f v1 v2 σ v :
  (np_binop f v1 v2 σ).1 = Ok v → pynum v = false.
Proof.
  unfold np_binop. rewrite bind_run.
  destruct (to_array v1 σ) as [[a|e] σ1]; [|done].
  rewrite bind_run. destruct (to_array v2 σ1) as [[b|e] σ2]; [|done].
  rewrite bind_run. unfold lift. destruct (nd_binop f a b) as [c|e]; [|done].
  apply of_array_kind.
Qed.

Lemma np_unop_kind f v1 σ v : (np_unop f v1 σ).1 = Ok v → pynum v = false.
Proof.
  unfold np_unop. rewrite bind_run.
  destruct (to_array v1 σ) as [[a|e] σ1]; [|done].
  apply of_array_kind.
Qed.

Lemma py_binop_kind f v1 v2 σ v :
  (py_binop f v1 v2 σ).1 = Ok v → pynum v = pynum v1 && pynum v2.
Proof.
  destruct v1 as [x|x|l], v2 as [y|y|m]; cbn [pynum andb py_binop];
    try apply np_binop_kind.
  by intros [= <-].
Qed.

Lemma py_unop_kind f v1 σ v :
  (py_unop f v1 σ).1 = Ok v → pynum v = pynum v1.
Proof.
  destruct v1 as [x|x|l]; cbn [pynum py_unop]; try apply np_unop_kind.
  by intros [= <-].
Qed.

Lemma py_truediv_kind v1 v2 σ v :
  (py_truediv v1 v2 σ).1 = Ok v → pynum v = pynum v1 && pynum v2.
Proof.
  destruct v1 as [x|x|l], v2 as [y|y|m]; cbn [pynum andb py_truediv];
    try apply np_binop_kind.
  case_decide; [done|]. by intros [= <-].
Qed.

Lemma runs_bind_kind (py : bool) base σ (m : M value) (k : value → M value)
    r1 K :
  extends base σ → evals m σ r1 →
  (∀ v, (m σ).1 = Ok v → pynum v = py) →
  (∀ v a σ', extends σ σ' → fresh σ v → denote σ' v = Some a → r1 = Ok a →
     pynum v = py → runs base (k v) σ' (K a)) →
  runs base (m ≫= k) σ (r1 ≫= K).
Proof.
  intros Hb [He Hr] Hpy Hk. unfold runs. rewrite bind_run.
  destruct (m σ) as [[v|e] σ'] eqn:E; simpl in *.
  - destruct r1 as [a|e']; [|done]. destruct Hr as [Hf Hd].
    apply (Hk v a σ'); try done. by apply Hpy.
  - destruct r1 as [a|e']; [done|]. subst e'. simpl.
    split; [by eapply extends_trans|done].
Qed.

(** ** The primitives and the models, run *)

Lemma runs_bind_ok base σ (m : M value) (k : value → M value) a r :
  extends base σ → evals m σ (Ok a) →
  (∀ v σ', extends σ σ' → fresh σ v → denote σ' v = Some a →
     runs base (k v) σ' r) →
  runs base (m ≫= k) σ r.
Proof.
  intros Hb Hm Hk.
  apply (runs_bind base σ m k (Ok a) (λ _, r) Hb Hm).
  intros v a' σ' He Hf Hd [= <-]. by apply Hk.
Qed.

Lemma runs_ret_num base σ x : extends base σ → runs base (mret (VNum x)) σ (Ok (scalar x)).
Proof. by intros Hb. Qed.

Ltac advance Hb H :=
  apply (λ X, extends_trans _ _ _ X H) in Hb;
  repeat match goal with
  | Hd : denote ?s _ = Some _ |- _ =>
      match type of H with
      | extends s _ => apply (denote_extends _ _ _ _ H) in Hd
      end
  end;
  clear H.

Ltac known := first [eassumption | reflexivity].

Ltac step Hb lem :=
  cbv beta;
  eapply runs_bind;
  [ exact Hb
  | lem
  | let H := fresh "Hext" in
    intros ? ? ? H _ ? _; advance Hb H ].

Ltac step_ok Hb lem :=
  cbv beta;
  eapply runs_bind_ok;
  [ exact Hb
  | lem
  | let H := fresh "Hext" in
    intros ? ? H _ ?; advance Hb H ].

Lemma runs_bind_ok_kind (py : bool) base σ (m : M value) (k : value → M value)
    a r :
  extends base σ → evals m σ (Ok a) →
  (∀ v, (m σ).1 = Ok v → pynum v = py) →
  (∀ v σ', extends σ σ' → fresh σ v → denote σ' v = Some a → pynum v = py →
     runs base (k v) σ' r) →
  runs base (m ≫= k) σ r.
Proof.
  intros Hb Hm Hpy Hk.
  apply (runs_bind_kind py base σ m k (Ok a) (λ _, r) Hb Hm Hpy).
  intros v a' σ' He Hf Hd [= <-]. by apply Hk.
Qed.

Lemma py_entry_Some dataset key v :
  dataset !! key = Some v → py_entry dataset key = pynum v.
Proof. intros H. unfold py_entry. by rewrite H. Qed.

(** Steps that also record whether the value is a Python number. *)
Ltac step_kind Hb lem klem :=
  cbv beta;
  eapply runs_bind_kind;
  [ exact Hb
  | lem
  | intros ?; klem
  | let H := fresh "Hext" in
    let K := fresh "Hkind" in
    intros ? ? ? H _ ? _ K; advance Hb H ].

Ltac step_ok_kind Hb lem klem :=
  cbv beta;
  eapply runs_bind_ok_kind;
  [ exact Hb
  | lem
  | intros ?; klem
  | let H := fresh "Hext" in
    let K := fresh "Hkind" in
    intros ? ? H _ ? K; advance Hb H ].

Ltac kind_entry :=
  match goal with
  | H : _ !! _ = Some _ |- _ => rewrite (py_entry_Some _ _ _ H)
  end.

Ltac kind_solve :=
  repeat match goal with
  | H : pynum _ = _ |- _ => rewrite H
  end;
  cbn [pynum];
  repeat match goal with
  | |- context [pynum ?v] => is_var v; destruct (pynum v)
  end;
  reflexivity.

Ltac step_get Hb :=
  cbv beta;
  apply runs_getitem; [exact Hb | assumption | intros ? ? ? ?].

Ltac finish Hb lem :=
  cbv beta; apply runs_bind_ret, runs_of_evals; [exact Hb | lem].

Lemma of_array_calls a σ : calls (of_array a σ).2 = calls σ.
Proof. unfold of_array. by destruct a as [[|d s] [|x [|y l]]]. Qed.

Lemma evals_beta_dist v a alpha beta scale σ :
  denote σ v = Some a →
  evals (beta_dist v alpha beta scale) σ (beta_dist_impl a alpha beta scale).
Proof.
  intros Ha. unfold beta_dist, evals, runs.
  rewrite !bind_run, (to_array_run _ _ _ Ha). rewrite bind_run. simpl log.
  cbv iota beta.
  apply (runs_of_evals σ (c ← lift _; of_array c)); [apply extends_log|].
  apply evals_lift_of_array.
Qed.

Lemma evals_truncnorm v a mu sigma high low σ :
  denote σ v = Some a →
  evals (truncnorm v mu sigma high low) σ (truncnorm_impl a mu sigma high low).
Proof.
  intros Ha. unfold truncnorm, evals, runs.
  rewrite !bind_run, (to_array_run _ _ _ Ha). rewrite bind_run. simpl log.
  cbv iota beta.
  apply (runs_of_evals σ (c ← lift _; of_array c)); [apply extends_log|].
  apply evals_lift_of_array.
Qed.

Lemma beta_dist_calls v a alpha beta scale σ :
  denote σ v = Some a →
  calls (beta_dist v alpha beta scale σ).2 =
  calls σ ++ [CallBetaDist a alpha beta scale].
Proof.
  intros Ha. unfold beta_dist.
  rewrite !bind_run, (to_array_run _ _ _ Ha). rewrite bind_run. unfold log.
  cbv iota beta. rewrite bind_run. unfold lift.
  destruct (beta_dist_impl a alpha beta scale) as [c|e]; [|done].
  by rewrite of_array_calls.
Qed.

Lemma independent_spin_magnitude_beta_evals σ dataset
    alpha_chi_1 alpha_chi_2 beta_chi_1 beta_chi_2 amax_1 amax_2 :
  valid σ dataset →
  evals (independent_spin_magnitude_beta dataset
           alpha_chi_1 alpha_chi_2 beta_chi_1 beta_chi_2 amax_1 amax_2) σ
        (independent_spin_magnitude_beta_nd
           (lookup_nd σ dataset "a_1") (lookup_nd σ dataset "a_2")
           alpha_chi_1 alpha_chi_2 beta_chi_1 beta_chi_2 amax_1 amax_2).
Proof.
  intros Hv. pose proof (extends_refl σ) as Hb. unfold evals.
  unfold independent_spin_magnitude_beta, independent_spin_magnitude_beta_nd.
  destruct (_ || _); [by apply runs_ret_num|].
  step_get Hb.
  step Hb ltac:(eapply evals_beta_dist; known).
  step_get Hb.
  step Hb ltac:(eapply evals_beta_dist; known).
  finish Hb ltac:(eapply evals_binop; known).
Qed.

Lemma independent_spin_orientation_gaussian_isotropic_evals σ dataset
    xi_spin sigma_1 sigma_2 :
  valid σ dataset →
  evals (independent_spin_orientation_gaussian_isotropic dataset
           xi_spin sigma_1 sigma_2) σ
        (independent_spin_orientation_gaussian_isotropic_nd
           (lookup_nd σ dataset "cos_tilt_1") (lookup_nd σ dataset "cos_tilt_2")
           xi_spin sigma_1 sigma_2).
Proof.
  intros Hv. pose proof (extends_refl σ) as Hb. unfold evals.
  unfold independent_spin_orientation_gaussian_isotropic,
    independent_spin_orientation_gaussian_isotropic_nd.
  step_get Hb.
  step Hb ltac:(eapply evals_truncnorm; known).
  step Hb ltac:(eapply evals_binop; known).
  step_get Hb.
  step Hb ltac:(eapply evals_truncnorm; known).
  step Hb ltac:(eapply evals_binop; known).
  finish Hb ltac:(eapply evals_binop; known).
Qed.

Lemma gaussian_chi_eff_evals σ dataset mu_chi_eff sigma_chi_eff :
  valid σ dataset →
  evals (gaussian_chi_eff dataset mu_chi_eff sigma_chi_eff) σ
        (gaussian_chi_eff_nd (lookup_nd σ dataset "chi_eff")
           mu_chi_eff sigma_chi_eff).
Proof.
  intros Hv. pose proof (extends_refl σ) as Hb. unfold evals.
  unfold gaussian_chi_eff, gaussian_chi_eff_nd.
  step_get Hb. apply runs_of_evals; [exact Hb|].
  eapply evals_truncnorm; known.
Qed.

Lemma gaussian_chi_p_evals σ dataset mu_chi_p sigma_chi_p :
  valid σ dataset →
  evals (gaussian_chi_p dataset mu_chi_p sigma_chi_p) σ
        (gaussian_chi_p_nd (lookup_nd σ dataset "chi_p") mu_chi_p sigma_chi_p).
Proof.
  intros Hv. pose proof (extends_refl σ) as Hb. unfold evals.
  unfold gaussian_chi_p, gaussian_chi_p_nd.
  step_get Hb. apply runs_of_evals; [exact Hb|].
  eapply evals_truncnorm; known.
Qed.

Lemma _2d_probability_evals self σ dataset
    mu_chi_eff sigma_chi_eff mu_chi_p sigma_chi_p spin_covariance :
  valid σ dataset →
  evals (_2d_probability self dataset
           mu_chi_eff sigma_chi_eff mu_chi_p sigma_chi_p spin_covariance) σ
        (_2d_probability_nd
           (py_entry dataset "chi_eff" && py_entry dataset "chi_p")
           (lookup_nd σ dataset "chi_eff") (lookup_nd σ dataset "chi_p")
           mu_chi_eff sigma_chi_eff mu_chi_p sigma_chi_p spin_covariance).
Proof.
  intros Hv. pose proof (extends_refl σ) as Hb. unfold evals.
  unfold _2d_probability, _2d_probability_nd. cbv zeta.
  step_get Hb. kind_entry.
  step_kind Hb ltac:(eapply evals_binop; known) ltac:(apply py_binop_kind).
  step_kind Hb ltac:(eapply evals_binop; known) ltac:(apply py_binop_kind).
  step_get Hb. kind_entry.
  step_kind Hb ltac:(eapply evals_binop; known) ltac:(apply py_binop_kind).
  step_kind Hb ltac:(eapply evals_binop; known) ltac:(apply py_binop_kind).
  step_ok_kind Hb ltac:(eapply evals_unop; known) ltac:(apply py_unop_kind).
  step_ok_kind Hb ltac:(eapply evals_unop; known) ltac:(apply py_unop_kind).
  step_kind Hb ltac:(eapply evals_binop; known) ltac:(apply py_binop_kind).
  step_kind Hb ltac:(eapply evals_binop; known) ltac:(apply py_binop_kind).
  step_kind Hb ltac:(eapply evals_binop; known) ltac:(apply py_binop_kind).
  step_kind Hb ltac:(eapply evals_binop; known) ltac:(apply py_binop_kind).
  step_kind Hb ltac:(eapply evals_binop; known) ltac:(apply py_binop_kind).
  step_ok_kind Hb ltac:(eapply evals_unop; known) ltac:(apply py_unop_kind).
  step_kind Hb ltac:(eapply evals_truediv_nonzero; [lra|known])
               ltac:(apply py_truediv_kind).
  match goal with
  | |- runs _ (py_truediv ?v _ ≫= _) _ (mbind _ (if ?py && _ then _ else _)) =>
      replace py with (pynum v) by kind_solve
  end.
  step Hb ltac:(eapply evals_truediv_num; known).
  finish Hb ltac:(eapply evals_np_unop; known).
Qed.

(** ** Every model leaves the arrays it is given as they were *)

Ltac frame_leaf :=
  first
    [ apply frames_getitem
    | apply frames_binop
    | apply frames_unop
    | apply frames_np_unop
    | apply frames_truediv
    | apply frames_itruediv; assumption
    | apply frames_trapz
    | apply frames_of_array
    | apply frames_to_array
    | apply frames_log
    | apply frames_lift
    | apply frames_ibinop; assumption
    | apply frames_ret; assumption ].

Ltac frame_steps :=
  repeat (eapply frames_bind; [frame_leaf | intros ? ?]); try frame_leaf.

Lemma frames_beta_dist base v alpha beta scale :
  frames base (beta_dist v alpha beta scale) (fresh base).
Proof. unfold beta_dist. frame_steps. Qed.

Lemma frames_truncnorm base v mu sigma high low :
  frames base (truncnorm v mu sigma high low) (fresh base).
Proof. unfold truncnorm. frame_steps. Qed.

Lemma independent_spin_magnitude_beta_frames base dataset
    alpha_chi_1 alpha_chi_2 beta_chi_1 beta_chi_2 amax_1 amax_2 :
  frames base
    (independent_spin_magnitude_beta dataset
       alpha_chi_1 alpha_chi_2 beta_chi_1 beta_chi_2 amax_1 amax_2)
    (fresh base).
Proof.
  unfold independent_spin_magnitude_beta.
  destruct (_ || _); [by apply frames_ret|].
  eapply frames_bind; [frame_leaf|intros a_1 _].
  eapply frames_bind; [apply frames_beta_dist|intros p_1 _].
  eapply frames_bind; [frame_leaf|intros a_2 _].
  eapply frames_bind; [apply frames_beta_dist|intros p_2 _].
  frame_steps.
Qed.

Lemma independent_spin_orientation_gaussian_isotropic_frames base dataset
    xi_spin sigma_1 sigma_2 :
  frames base
    (independent_spin_orientation_gaussian_isotropic dataset
       xi_spin sigma_1 sigma_2)
    (fresh base).
Proof.
  unfold independent_spin_orientation_gaussian_isotropic.
  eapply frames_bind; [frame_leaf|intros c_1 _].
  eapply frames_bind; [apply frames_truncnorm|intros t_1 _].
  eapply frames_bind; [frame_leaf|intros al _].
  eapply frames_bind; [frame_leaf|intros c_2 _].
  eapply frames_bind; [apply frames_truncnorm|intros t_2 _].
  frame_steps.
Qed.

Lemma iid_spin_frames base dataset xi_spin sigma_spin amax alpha_chi beta_chi :
  frames base (iid_spin dataset xi_spin sigma_spin amax alpha_chi beta_chi)
         (fresh base).
Proof.
  unfold iid_spin, iid_spin_orientation_gaussian_isotropic,
    iid_spin_magnitude_beta.
  eapply frames_bind;
    [apply independent_spin_orientation_gaussian_isotropic_frames|intros o _].
  eapply frames_bind;
    [apply independent_spin_magnitude_beta_frames|intros m _].
  frame_steps.
Qed.

Lemma gaussian_chi_eff_frames base dataset mu_chi_eff sigma_chi_eff :
  frames base (gaussian_chi_eff dataset mu_chi_eff sigma_chi_eff) (fresh base).
Proof.
  unfold gaussian_chi_eff.
  eapply frames_bind; [frame_leaf|intros xx _]. apply frames_truncnorm.
Qed.

Lemma gaussian_chi_p_frames base dataset mu_chi_p sigma_chi_p :
  frames base (gaussian_chi_p dataset mu_chi_p sigma_chi_p) (fresh base).
Proof.
  unfold gaussian_chi_p.
  eapply frames_bind; [frame_leaf|intros xx _]. apply frames_truncnorm.
Qed.

Lemma _2d_probability_frames base self dataset
    mu_chi_eff sigma_chi_eff mu_chi_p sigma_chi_p spin_covariance :
  frames base
    (_2d_probability self dataset
       mu_chi_eff sigma_chi_eff mu_chi_p sigma_chi_p spin_covariance)
    (fresh base).
Proof. unfold _2d_probability. frame_steps. Qed.

Lemma _normalization_frames base self
    mu_chi_eff sigma_chi_eff mu_chi_p sigma_chi_p spin_covariance :
  frames base
    (_normalization self
       mu_chi_eff sigma_chi_eff mu_chi_p sigma_chi_p spin_covariance)
    (fresh base).
Proof.
  unfold _normalization.
  eapply frames_bind; [apply _2d_probability_frames|intros prob _].
  frame_steps.
Qed.

Lemma __call___frames base self dataset
    mu_chi_eff sigma_chi_eff mu_chi_p sigma_chi_p spin_covariance :
  frames base
    (__call__ self dataset
       mu_chi_eff sigma_chi_eff mu_chi_p sigma_chi_p spin_covariance)
    (fresh base).
Proof.
  unfold __call__. case_bool_decide.
  - eapply frames_bind; [apply gaussian_chi_eff_frames|intros prob Hprob].
    eapply frames_bind; [apply gaussian_chi_p_frames|intros factor _].
    frame_steps.
  - eapply frames_bind; [apply _2d_probability_frames|intros prob Hprob].
    eapply frames_bind; [apply _normalization_frames|intros norm _].
    frame_steps.
Qed.

(** ** The models on arrays of one shape *)

Lemma nd_map_map f g a : nd_map f (nd_map g a) = nd_map (λ x, f (g x)) a.
Proof. unfold nd_map. simpl. by rewrite List.map_map. Qed.

Lemma zip_with_map_both (f : R → R → R) (g h : R → R) (xs ys : list R) :
  zip_with f (map g xs) (map h ys) = zip_with (λ x y, f (g x) (h y)) xs ys.
Proof.
  revert ys. induction xs as [|x xs IH]; intros [|y ys]; simpl; try done.
  by rewrite IH.
Qed.

Lemma map_zip_with (f : R → R) (g : R → R → R) (xs ys : list R) :
  map f (zip_with g xs ys) = zip_with (λ x y, f (g x y)) xs ys.
Proof.
  revert ys. induction xs as [|x xs IH]; intros [|y ys]; simpl; try done.
  by rewrite IH.
Qed.

Lemma zip_with_zip_with (f g h : R → R → R) (xs ys : list R) :
  zip_with f (zip_with g xs ys) (zip_with h xs ys) =
  zip_with (λ x y, f (g x y) (h x y)) xs ys.
Proof.
  revert ys. induction xs as [|x xs IH]; intros [|y ys]; simpl; try done.
  by rewrite IH.
Qed.

Lemma zip_with_zip_with_r (f g : R → R → R) (xs ys : list R) :
  zip_with f (zip_with g xs ys) ys = zip_with (λ x y, f (g x y) y) xs ys.
Proof.
  revert ys. induction xs as [|x xs IH]; intros [|y ys]; simpl; try done.
  by rewrite IH.
Qed.

Lemma zip_with_map_l (f : R → R → R) (g : R → R) (xs ys : list R) :
  zip_with f (map g xs) ys = zip_with (λ x y, f (g x) y) xs ys.
Proof.
  revert ys. induction xs as [|x xs IH]; intros [|y ys]; simpl; try done.
  by rewrite IH.
Qed.

Lemma zip_with_pointwise (f g : R → R → R) (xs ys : list R) :
  (∀ x y, f x y = g x y) → zip_with f xs ys = zip_with g xs ys.
Proof.
  intros Hfg. revert ys.
  induction xs as [|x xs IH]; intros [|y ys]; simpl; try done.
  by rewrite Hfg, IH.
Qed.

Lemma zip_with_comm (f : R → R → R) (xs ys : list R) :
  (∀ x y, f x y = f y x) → zip_with f xs ys = zip_with f ys xs.
Proof.
  intros Hf. revert ys.
  induction xs as [|x xs IH]; intros [|y ys]; simpl; try done.
  by rewrite Hf, IH.
Qed.

Ltac wf_tac :=
  repeat first [ apply wf_scalar | apply wf_nd_map | apply wf_nd_zip ];
  first [ assumption | (simpl; congruence) ].

Ltac nd_simpl :=
  repeat (first [ rewrite nd_binop_scalar_l by wf_tac
                | rewrite nd_binop_scalar_r by wf_tac
                | rewrite nd_binop_same by wf_tac ];
          cbn [mbind res_bind]).

(** Where the determinant is not 0 the divisions are those of the reals,
    for Python numbers and numpy values alike. *)
Lemma _2d_probability_nd_same py a b
    mu_chi_eff sigma_chi_eff mu_chi_p sigma_chi_p spin_covariance :
  wf a → wf b → shape a = shape b →
  sigma_chi_eff ^ 2 * sigma_chi_p ^ 2 * (1 - spin_covariance) ≠ 0 →
  _2d_probability_nd py (Ok a) (Ok b)
    mu_chi_eff sigma_chi_eff mu_chi_p sigma_chi_p spin_covariance =
  Ok (nd_zip (spec_2d_probability
                mu_chi_eff sigma_chi_eff mu_chi_p sigma_chi_p spin_covariance)
        a b).
Proof.
  intros Ha Hb Hs Hdet. unfold _2d_probability_nd. cbv zeta.
  cbn [mbind res_bind]. nd_simpl.
  rewrite bool_decide_eq_false_2, andb_false_r by done.
  nd_simpl. cbn [mbind res_bind]. f_equal. rewrite !nd_map_map.
  unfold nd_zip, nd_map. cbn [shape data]. f_equal.
  rewrite !zip_with_map_both, !map_zip_with, zip_with_zip_with.
  apply zip_with_pointwise. intros x y. unfold spec_2d_probability.
  cbv zeta. f_equal. rewrite np_div_nonzero by done.
  rewrite np_div_nonzero by lra.
  unfold Rdiv. rewrite (Rinv_mult 2). ring.
Qed.

(** On numpy values no division raises: arrays of one shape give an
    array of that shape, whatever the determinant. *)
Lemma _2d_probability_nd_shape a b
    mu_chi_eff sigma_chi_eff mu_chi_p sigma_chi_p spin_covariance :
  wf a → wf b → shape a = shape b →
  ∃ c, _2d_probability_nd false (Ok a) (Ok b)
         mu_chi_eff sigma_chi_eff mu_chi_p sigma_chi_p spin_covariance = Ok c ∧
       shape c = shape a.
Proof.
  intros Ha Hb Hs. unfold _2d_probability_nd. cbv zeta.
  cbn [mbind res_bind andb]. nd_simpl. cbn [mbind res_bind].
  eexists. split; [reflexivity|done].
Qed.

Lemma independent_spin_orientation_gaussian_isotropic_nd_same
    c_1 c_2 t_1 t_2 xi_spin sigma_1 sigma_2 :
  truncnorm_impl c_1 1 sigma_1 1 (-1) = Ok t_1 →
  truncnorm_impl c_2 1 sigma_2 1 (-1) = Ok t_2 →
  wf t_1 → wf t_2 → shape t_1 = shape t_2 →
  independent_spin_orientation_gaussian_isotropic_nd (Ok c_1) (Ok c_2)
    xi_spin sigma_1 sigma_2 =
  Ok (nd_zip (spec_mixture xi_spin) t_1 t_2).
Proof.
  intros H1 H2 Hw1 Hw2 Hs.
  unfold independent_spin_orientation_gaussian_isotropic_nd.
  cbn [mbind res_bind]. rewrite H1. cbn [mbind res_bind]. nd_simpl.
  rewrite H2. cbn [mbind res_bind]. nd_simpl. f_equal.
  unfold nd_zip, nd_map. cbn [shape data]. f_equal.
  rewrite zip_with_map_l, map_zip_with. done.
Qed.

Lemma independent_spin_magnitude_beta_nd_same
    a_1 a_2 b_1 b_2 alpha_chi_1 alpha_chi_2 beta_chi_1 beta_chi_2 amax_1 amax_2 :
  0 <= alpha_chi_1 → 0 <= alpha_chi_2 → 0 <= beta_chi_1 → 0 <= beta_chi_2 →
  beta_dist_impl a_1 alpha_chi_1 beta_chi_1 amax_1 = Ok b_1 →
  beta_dist_impl a_2 alpha_chi_2 beta_chi_2 amax_2 = Ok b_2 →
  wf b_1 → wf b_2 → shape b_1 = shape b_2 →
  independent_spin_magnitude_beta_nd (Ok a_1) (Ok a_2)
    alpha_chi_1 alpha_chi_2 beta_chi_1 beta_chi_2 amax_1 amax_2 =
  Ok (nd_zip Rmult b_1 b_2).
Proof.
  intros Ha1 Ha2 Hb1 Hb2 H1 H2 Hw1 Hw2 Hs.
  unfold independent_spin_magnitude_beta_nd.
  rewrite !bool_decide_eq_false_2 by lra.
  cbn [orb mbind res_bind]. rewrite H1. cbn [mbind res_bind].
  rewrite H2. cbn [mbind res_bind]. by nd_simpl.
Qed.

Lemma lookup_nd_Some σ dataset key v a :
  dataset !! key = Some v → denote σ v = Some a →
  lookup_nd σ dataset key = Ok a.
Proof. intros Hk Ha. unfold lookup_nd. by rewrite Hk, Ha. Qed.

(** ** The Beta magnitude model *)

Lemma negative_shape_guard alpha_chi_1 alpha_chi_2 beta_chi_1 beta_chi_2 :
  bool_decide (alpha_chi_1 < 0) || bool_decide (beta_chi_1 < 0)
  || bool_decide (alpha_chi_2 < 0) || bool_decide (beta_chi_2 < 0) = true ↔
  alpha_chi_1 < 0 ∨ beta_chi_1 < 0 ∨ alpha_chi_2 < 0 ∨ beta_chi_2 < 0.
Proof.
  clear beta_dist_impl truncnorm_impl div_by_zero.
  rewrite !orb_true_iff, !bool_decide_eq_true. tauto.
Qed.

Lemma independent_spin_magnitude_beta_early_exit σ dataset
    alpha_chi_1 alpha_chi_2 beta_chi_1 beta_chi_2 amax_1 amax_2 :
  bool_decide (alpha_chi_1 < 0) || bool_decide (beta_chi_1 < 0)
  || bool_decide (alpha_chi_2 < 0) || bool_decide (beta_chi_2 < 0) = true →
  independent_spin_magnitude_beta dataset
    alpha_chi_1 alpha_chi_2 beta_chi_1 beta_chi_2 amax_1 amax_2 σ
  = (Ok (VNum 0), σ).
Proof.
  intros Hg. unfold independent_spin_magnitude_beta. by rewrite Hg.
Qed.

Ltac frame_leaf' :=
  first [ apply frames_beta_dist | apply frames_truncnorm | frame_leaf ].

Ltac frame_steps' :=
  repeat (eapply frames_bind; [frame_leaf' | intros ? ?]); try frame_leaf'.

(** C5: when the four shape parameters are non-negative,
    [independent_spin_magnitude_beta] returns the entrywise product of
    the Beta density of [a_1] (parameters [alpha_chi_1], [beta_chi_1],
    scale [amax_1]) and the Beta density of [a_2] (parameters
    [alpha_chi_2], [beta_chi_2], scale [amax_2]). *)
Theorem independent_spin_magnitude_beta_product σ dataset v_1 v_2 a_1 a_2 b_1 b_2
    alpha_chi_1 alpha_chi_2 beta_chi_1 beta_chi_2 amax_1 amax_2 :
  valid σ dataset →
  dataset !! "a_1" = Some v_1 → dataset !! "a_2" = Some v_2 →
  denote σ v_1 = Some a_1 → denote σ v_2 = Some a_2 →
  0 <= alpha_chi_1 → 0 <= alpha_chi_2 → 0 <= beta_chi_1 → 0 <= beta_chi_2 →
  BetaDensity a_1 alpha_chi_1 beta_chi_1 amax_1 = Ok b_1 →
  BetaDensity a_2 alpha_chi_2 beta_chi_2 amax_2 = Ok b_2 →
  wf b_1 → wf b_2 → shape b_1 = shape b_2 →
  evals (independent_spin_magnitude_beta dataset
           alpha_chi_1 alpha_chi_2 beta_chi_1 beta_chi_2 amax_1 amax_2) σ
        (Ok (nd_zip Rmult b_1 b_2)).
Proof.
  intros Hv Hk1 Hk2 Hd1 Hd2 Ha1 Ha2 Hb1 Hb2 H1 H2 Hw1 Hw2 Hs.
  pose proof (independent_spin_magnitude_beta_evals σ dataset
    alpha_chi_1 alpha_chi_2 beta_chi_1 beta_chi_2 amax_1 amax_2 Hv) as H.
  rewrite (lookup_nd_Some _ _ _ _ _ Hk1 Hd1) in H.
  rewrite (lookup_nd_Some _ _ _ _ _ Hk2 Hd2) in H.
  by rewrite (independent_spin_magnitude_beta_nd_same _ _ b_1 b_2) in H.
Qed.

(** C6: if one of the four shape parameters is negative,
    [independent_spin_magnitude_beta] returns the number 0 and leaves
    the state as it found it: no array is read or made, and the record
    of calls to the primitives is the same, so [beta_dist] is not
    invoked. *)
Theorem independent_spin_magnitude_beta_negative σ dataset
    alpha_chi_1 alpha_chi_2 beta_chi_1 beta_chi_2 amax_1 amax_2 :
  alpha_chi_1 < 0 ∨ beta_chi_1 < 0 ∨ alpha_chi_2 < 0 ∨ beta_chi_2 < 0 →
  independent_spin_magnitude_beta dataset
    alpha_chi_1 alpha_chi_2 beta_chi_1 beta_chi_2 amax_1 amax_2 σ
  = (Ok (VNum 0), σ).
Proof.
  intros Hneg. apply independent_spin_magnitude_beta_early_exit.
  by apply negative_shape_guard.
Qed.

(** C10: [independent_spin_magnitude_beta] takes the early exit (the
    number 0, state untouched) exactly when one of the four shape
    parameters is strictly negative; when all four are at least 0, zero
    included, the guard does not fire and [beta_dist] is invoked on
    [dataset["a_1"]] with [alpha_chi_1], [beta_chi_1] and [amax_1]. *)
Theorem independent_spin_magnitude_beta_guard σ dataset v_1 a_1
    alpha_chi_1 alpha_chi_2 beta_chi_1 beta_chi_2 amax_1 amax_2 :
  dataset !! "a_1" = Some v_1 → denote σ v_1 = Some a_1 →
  let run := independent_spin_magnitude_beta dataset
               alpha_chi_1 alpha_chi_2 beta_chi_1 beta_chi_2 amax_1 amax_2 σ in
  (run = (Ok (VNum 0), σ) ↔
     alpha_chi_1 < 0 ∨ beta_chi_1 < 0 ∨ alpha_chi_2 < 0 ∨ beta_chi_2 < 0) ∧
  (0 <= alpha_chi_1 → 0 <= beta_chi_1 → 0 <= alpha_chi_2 → 0 <= beta_chi_2 →
     ∃ later, calls run.2 =
       calls σ ++ CallBetaDist a_1 alpha_chi_1 beta_chi_1 amax_1 :: later).
Proof.
  intros Hk1 Hd1 run.
  assert (bool_decide (alpha_chi_1 < 0) || bool_decide (beta_chi_1 < 0)
          || bool_decide (alpha_chi_2 < 0) || bool_decide (beta_chi_2 < 0)
          = false →
          ∃ later, calls run.2 =
            calls σ ++ CallBetaDist a_1 alpha_chi_1 beta_chi_1 amax_1 :: later)
    as Hcall.
  { intros Hg. subst run. unfold independent_spin_magnitude_beta.
    rewrite Hg, bind_run. unfold getitem, lift. rewrite Hk1. cbv beta iota.
    rewrite bind_run.
    pose proof (beta_dist_calls v_1 a_1 alpha_chi_1 beta_chi_1 amax_1 σ Hd1)
      as Hc.
    destruct (beta_dist v_1 alpha_chi_1 beta_chi_1 amax_1 σ)
      as [[p_1|e] σ1]; simpl in Hc.
    - match goal with |- context [calls (?m σ1).2] =>
        assert (frames σ1 m (fresh σ1)) as Hfr by frame_steps'
      end.
      destruct (Hfr σ1 (extends_refl σ1)) as [[_ [later Hl]] _].
      exists later. by rewrite Hl, Hc, <- app_assoc.
    - exists []. simpl. by rewrite Hc. }
  split.
  - split.
    + intros Hrun.
      destruct (_ || _) eqn:Hg in Hcall; [by apply negative_shape_guard|].
      destruct (Hcall eq_refl) as [later Hl].
      rewrite Hrun in Hl. simpl in Hl.
      apply (f_equal length) in Hl. rewrite length_app in Hl. simpl in Hl. lia.
    + intros Hneg. apply independent_spin_magnitude_beta_early_exit.
      by apply negative_shape_guard.
  - intros Ha1 Hb1 Ha2 Hb2. apply Hcall.
    rewrite !bool_decide_eq_false_2 by lra. done.
Qed.

(** ** The bivariate form, the mixture and the products *)

Lemma _2d_probability_same_shape self σ dataset a b
    mu_chi_eff sigma_chi_eff mu_chi_p sigma_chi_p spin_covariance :
  valid σ dataset →
  lookup_nd σ dataset "chi_eff" = Ok a → lookup_nd σ dataset "chi_p" = Ok b →
  wf a → wf b → shape a = shape b →
  sigma_chi_eff ^ 2 * sigma_chi_p ^ 2 * (1 - spin_covariance) ≠ 0 →
  evals (_2d_probability self dataset
           mu_chi_eff sigma_chi_eff mu_chi_p sigma_chi_p spin_covariance) σ
        (Ok (nd_zip (spec_2d_probability
                       mu_chi_eff sigma_chi_eff mu_chi_p sigma_chi_p
                       spin_covariance) a b)).
Proof.
  intros Hv Hl1 Hl2 Hw1 Hw2 Hs Hdet.
  pose proof (_2d_probability_evals self σ dataset
    mu_chi_eff sigma_chi_eff mu_chi_p sigma_chi_p spin_covariance Hv) as H.
  rewrite Hl1, Hl2 in H. by rewrite _2d_probability_nd_same in H.
Qed.

(** With a numpy value under one of the two keys the form is computed
    whatever the determinant: no division raises. *)
Lemma _2d_probability_numpy self σ dataset a b
    mu_chi_eff sigma_chi_eff mu_chi_p sigma_chi_p spin_covariance :
  valid σ dataset →
  lookup_nd σ dataset "chi_eff" = Ok a → lookup_nd σ dataset "chi_p" = Ok b →
  py_entry dataset "chi_eff" && py_entry dataset "chi_p" = false →
  wf a → wf b → shape a = shape b →
  ∃ prob,
    evals (_2d_probability self dataset
             mu_chi_eff sigma_chi_eff mu_chi_p sigma_chi_p spin_covariance) σ
          (Ok prob) ∧
    shape prob = shape a.
Proof.
  intros Hv Hl1 Hl2 Hpy Hw1 Hw2 Hs.
  pose proof (_2d_probability_evals self σ dataset
    mu_chi_eff sigma_chi_eff mu_chi_p sigma_chi_p spin_covariance Hv) as H.
  rewrite Hl1, Hl2, Hpy in H.
  destruct (_2d_probability_nd_shape a b
    mu_chi_eff sigma_chi_eff mu_chi_p sigma_chi_p spin_covariance Hw1 Hw2 Hs)
    as (c & Hc & Hsc).
  rewrite Hc in H. by exists c.
Qed.


(** C4: [independent_spin_orientation_gaussian_isotropic] returns, entry
    by entry, [(1 - xi_spin)/4 + xi_spin * T1 * T2], where [T1] and [T2]
    are the truncated Gaussians of [cos_tilt_1] and [cos_tilt_2] with
    mean 1, widths [sigma_1] and [sigma_2], and bounds [[-1, 1]]. *)
Theorem independent_spin_orientation_gaussian_isotropic_mixture
    σ dataset v_1 v_2 c_1 c_2 t_1 t_2 xi_spin sigma_1 sigma_2 :
  valid σ dataset →
  dataset !! "cos_tilt_1" = Some v_1 → dataset !! "cos_tilt_2" = Some v_2 →
  denote σ v_1 = Some c_1 → denote σ v_2 = Some c_2 →
  TruncGaussian c_1 1 sigma_1 (-1) 1 = Ok t_1 →
  TruncGaussian c_2 1 sigma_2 (-1) 1 = Ok t_2 →
  wf t_1 → wf t_2 → shape t_1 = shape t_2 →
  evals (independent_spin_orientation_gaussian_isotropic dataset
           xi_spin sigma_1 sigma_2) σ
        (Ok (nd_zip (spec_mixture xi_spin) t_1 t_2)).
Proof.
  intros Hv Hk1 Hk2 Hd1 Hd2 H1 H2 Hw1 Hw2 Hs.
  pose proof (independent_spin_orientation_gaussian_isotropic_evals σ dataset
    xi_spin sigma_1 sigma_2 Hv) as H.
  rewrite (lookup_nd_Some _ _ _ _ _ Hk1 Hd1) in H.
  rewrite (lookup_nd_Some _ _ _ _ _ Hk2 Hd2) in H.
  by rewrite (independent_spin_orientation_gaussian_isotropic_nd_same
                _ _ t_1 t_2) in H.
Qed.

Lemma broadcast_dim_comm d1 d2 : broadcast_dim d1 d2 = broadcast_dim d2 d1.
Proof. unfold broadcast_dim. repeat case_decide; congruence. Qed.

Lemma broadcast_rev_comm s1 s2 : broadcast_rev s1 s2 = broadcast_rev s2 s1.
Proof.
  revert s2. induction s1 as [|d1 s1 IH]; intros [|d2 s2]; try done.
  simpl. by rewrite broadcast_dim_comm, IH.
Qed.

Lemma nd_binop_comm f a b :
  (∀ x y, f x y = f y x) → nd_binop f a b = nd_binop f b a.
Proof.
  intros Hf. unfold nd_binop, broadcast_shapes.
  rewrite (broadcast_rev_comm (reverse (shape a))).
  destruct (broadcast_rev _ _) as [s|]; simpl; [|done].
  by rewrite (zip_with_comm f _ _ Hf).
Qed.

Lemma independent_spin_magnitude_beta_stable σ σ' dataset
    alpha_chi_1 alpha_chi_2 beta_chi_1 beta_chi_2 amax_1 amax_2 r :
  valid σ dataset → extends σ σ' →
  evals (independent_spin_magnitude_beta dataset
           alpha_chi_1 alpha_chi_2 beta_chi_1 beta_chi_2 amax_1 amax_2) σ r →
  evals (independent_spin_magnitude_beta dataset
           alpha_chi_1 alpha_chi_2 beta_chi_1 beta_chi_2 amax_1 amax_2) σ' r.
Proof.
  intros Hv He H.
  rewrite (runs_det _ _ _ _ _ H
             (independent_spin_magnitude_beta_evals σ dataset _ _ _ _ _ _ Hv)).
  rewrite <- !(lookup_nd_extends σ σ') by done.
  apply independent_spin_magnitude_beta_evals. by eapply valid_extends.
Qed.

Lemma gaussian_chi_p_stable σ σ' dataset mu_chi_p sigma_chi_p r :
  valid σ dataset → extends σ σ' →
  evals (gaussian_chi_p dataset mu_chi_p sigma_chi_p) σ r →
  evals (gaussian_chi_p dataset mu_chi_p sigma_chi_p) σ' r.
Proof.
  intros Hv He H.
  rewrite (runs_det _ _ _ _ _ H (gaussian_chi_p_evals σ dataset _ _ Hv)).
  rewrite <- !(lookup_nd_extends σ σ') by done.
  apply gaussian_chi_p_evals. by eapply valid_extends.
Qed.

(** C7: [iid_spin] returns the entrywise product of what
    [iid_spin_magnitude_beta] and
    [iid_spin_orientation_gaussian_isotropic] return on the same dataset
    with the same hyper-parameters. *)
Theorem iid_spin_product σ dataset xi_spin sigma_spin amax alpha_chi beta_chi
    magnitude orientation :
  valid σ dataset →
  evals (iid_spin_magnitude_beta dataset amax alpha_chi beta_chi) σ
        (Ok magnitude) →
  evals (iid_spin_orientation_gaussian_isotropic dataset xi_spin sigma_spin) σ
        (Ok orientation) →
  evals (iid_spin dataset xi_spin sigma_spin amax alpha_chi beta_chi) σ
        (nd_binop Rmult magnitude orientation).
Proof.
  intros Hv Hm Ho. unfold iid_spin, evals.
  eapply runs_bind_ok; [apply extends_refl|exact Ho|].
  intros v_o σ1 He1 _ Hd1.
  eapply runs_bind_ok;
    [exact He1
    |by apply (independent_spin_magnitude_beta_stable σ σ1)|].
  intros v_m σ2 He2 _ Hd2.
  apply (denote_extends _ _ _ _ He2) in Hd1.
  apply runs_bind_ret, runs_of_evals; [by eapply extends_trans|].
  rewrite (nd_binop_comm Rmult) by (intros; apply Rmult_comm).
  by eapply evals_binop.
Qed.

(** C3: with [spin_covariance = 0], [__call__] returns the entrywise
    product of what [gaussian_chi_eff] and [gaussian_chi_p] return on
    the dataset; whatever the instance holds, the grid plays no part and
    nothing is divided by a normalization. *)
Theorem call_zero_covariance self σ dataset
    mu_chi_eff sigma_chi_eff mu_chi_p sigma_chi_p p_eff p_p :
  valid σ dataset →
  evals (gaussian_chi_eff dataset mu_chi_eff sigma_chi_eff) σ (Ok p_eff) →
  evals (gaussian_chi_p dataset mu_chi_p sigma_chi_p) σ (Ok p_p) →
  wf p_eff → wf p_p → shape p_eff = shape p_p →
  evals (__call__ self dataset
           mu_chi_eff sigma_chi_eff mu_chi_p sigma_chi_p 0) σ
        (Ok (nd_zip Rmult p_eff p_p)).
Proof.
  intros Hv Heff Hp Hw1 Hw2 Hs. unfold __call__, evals.
  rewrite bool_decide_eq_true_2 by done.
  eapply runs_bind_ok; [apply extends_refl|exact Heff|].
  intros prob σ1 He1 Hf1 Hd1.
  eapply runs_bind_ok;
    [exact He1|by apply (gaussian_chi_p_stable σ σ1)|].
  intros factor σ2 He2 _ Hd2.
  apply (denote_extends _ _ _ _ He2) in Hd1.
  apply runs_bind_ret.
  eapply runs_ibinop; try eassumption.
  - by eapply extends_trans.
  - by apply nd_binop_same.
  - by apply nd_ibinop_same.
Qed.

(** ** The grid of [GaussianChiEffChiP] *)

Lemma lookup_map {A B} (f : A → B) (xs : list A) (i : nat) :
  map f xs !! i = f <$> xs !! i.
Proof.
  revert i. induction xs as [|x xs IH]; intros [|i]; simpl; auto.
Qed.

Lemma nd_linspace_length start stop num :
  length (data (nd_linspace start stop num)) = num.
Proof. unfold nd_linspace. cbn [data]. by rewrite length_map, length_seq. Qed.

Lemma nd_linspace_evenly_spaced start stop num :
  evenly_spaced start stop num (nd_linspace start stop num).
Proof.
  split; [done|]. split; [apply nd_linspace_length|].
  intros i Hi. unfold nd_linspace. cbn [data].
  rewrite lookup_map, lookup_seq_lt by done. simpl. f_equal.
  unfold Rdiv. ring.
Qed.

Lemma length_concat_replicate (k : nat) (xs : list R) :
  length (concat (replicate k xs)) = (k * length xs)%nat.
Proof.
  induction k as [|k IH]; [done|]. simpl. rewrite length_app, IH. lia.
Qed.

Lemma length_concat_map_replicate (n : nat) (ys : list R) :
  length (concat (map (replicate n) ys)) = (length ys * n)%nat.
Proof.
  induction ys as [|y ys IH]; [done|].
  simpl. rewrite length_app, length_replicate, IH. lia.
Qed.

Lemma lookup_concat_replicate (k : nat) (xs : list R) (i j : nat) :
  (i < k)%nat → (j < length xs)%nat →
  concat (replicate k xs) !! (i * length xs + j)%nat = xs !! j.
Proof.
  revert i. induction k as [|k IH]; intros i Hi Hj; [lia|].
  simpl. destruct i as [|i].
  - by rewrite lookup_app_l.
  - rewrite lookup_app_r by lia.
    replace (S i * length xs + j - length xs)%nat
      with (i * length xs + j)%nat by lia.
    apply IH; lia.
Qed.

Lemma lookup_concat_map_replicate (n : nat) (ys : list R) (i j : nat) :
  (i < length ys)%nat → (j < n)%nat →
  concat (map (replicate n) ys) !! (i * n + j)%nat = ys !! i.
Proof.
  revert i. induction ys as [|y ys IH]; intros i Hi Hj; simpl in *; [lia|].
  destruct i as [|i].
  - rewrite lookup_app_l by (rewrite length_replicate; lia).
    simpl. by apply lookup_replicate_2.
  - rewrite lookup_app_r by (rewrite length_replicate; lia).
    rewrite length_replicate.
    replace (S i * n + j - n)%nat with (i * n + j)%nat by lia.
    apply IH; lia.
Qed.

Lemma nd_meshgrid_outer_product x y :
  outer_product x y (nd_meshgrid x y).1 (nd_meshgrid x y).2.
Proof.
  unfold outer_product, nd_meshgrid, wf. cbn [fst snd shape data size_of foldr].
  repeat split.
  - rewrite length_concat_replicate. lia.
  - rewrite length_concat_map_replicate. lia.
  - by apply lookup_concat_replicate.
  - by apply lookup_concat_map_replicate.
Qed.

Lemma of_array_run a σ :
  ∃ v σ', of_array a σ = (Ok v, σ') ∧ extends σ σ' ∧ denote σ' v = Some a.
Proof.
  destruct (evals_of_array a σ) as [He Hr].
  destruct (of_array a σ) as [[v|e] σ']; simpl in *; [|done].
  exists v, σ'. by destruct Hr.
Qed.

Lemma __init___run σ0 :
  ∃ self σ, __init__ σ0 = (Ok self, σ) ∧ extends σ0 σ ∧ grid_built self σ.
Proof.
  unfold __init__, xp_linspace, xp_meshgrid.
  destruct (of_array_run (nd_linspace (-1) 1 100) σ0)
    as (vx & σ1 & E1 & He1 & Hx).
  rewrite bind_run, E1. cbv beta iota.
  destruct (of_array_run (nd_linspace 0 1 50) σ1)
    as (vy & σ2 & E2 & He2 & Hy).
  rewrite bind_run, E2. cbv beta iota.
  apply (denote_extends _ _ _ _ He2) in Hx.
  rewrite !bind_run, (to_array_run _ _ _ Hx). cbv beta iota.
  rewrite !bind_run, (to_array_run _ _ _ Hy). cbv beta iota.
  set (x := nd_linspace (-1) 1 100) in *. set (y := nd_linspace 0 1 50) in *.
  destruct (of_array_run (nd_meshgrid x y).1 σ2)
    as (g1 & σ3 & E3 & He3 & Hg1).
  rewrite bind_run, E3. cbv beta iota.
  destruct (of_array_run (nd_meshgrid x y).2 σ3)
    as (g2 & σ4 & E4 & He4 & Hg2).
  rewrite bind_run, E4. cbv beta iota.
  eexists _, σ4. split; [reflexivity|].
  assert (extends σ2 σ4) as He24 by (by eapply extends_trans).
  split; [eauto using extends_trans|].
  repeat split; cbn [chi_eff chi_p chi_eff_grid chi_p_grid normalization_data fst snd];
    eauto using denote_extends.
Qed.

Lemma __init___built σ0 self σ :
  __init__ σ0 = (Ok self, σ) → grid_built self σ.
Proof.
  destruct (__init___run σ0) as (self' & σ' & E & _ & H).
  rewrite E. by intros [= <- <-].
Qed.

Lemma grid_built_extends self σ σ' :
  extends σ σ' → grid_built self σ → grid_built self σ'.
Proof.
  intros He (Hx & Hy & Hgx & Hgy & Hnd).
  repeat split; eauto using denote_extends.
Qed.

Lemma step_extends self σ σ' : step self σ σ' → extends σ σ'.
Proof.
  destruct 1.
  - apply (frames_runs σ); [apply __call___frames|apply extends_refl].
  - apply extends_alloc.
Qed.

Lemma reachable_built self σ : reachable self σ → grid_built self σ.
Proof.
  induction 1 as [σ0 self σ Hinit|self σ σ' _ IH Hstep].
  - by eapply __init___built.
  - eapply grid_built_extends; [by eapply step_extends|done].
Qed.

Lemma grid_built_described self σ : grid_built self σ → construction_grid self σ.
Proof.
  intros (Hx & Hy & Hgx & Hgy & Hnd).
  eexists _, _, _, _.
  do 4 (split; [eassumption|]).
  split; [apply nd_linspace_evenly_spaced|].
  split; [apply nd_linspace_evenly_spaced|].
  split; [apply nd_meshgrid_outer_product|done].
Qed.

(** C8: in every state an instance can be in -- after [__init__], any
    number of calls with any dataset and hyper-parameters, and any
    arrays the caller builds in between -- the instance holds the grid of
    construction time: 100 evenly spaced points from -1 to 1, 50 from 0
    to 1, and their outer-product grids; and one more step leaves the
    four arrays as they are. *)
Theorem grid_never_changes self σ :
  reachable self σ →
  construction_grid self σ ∧ ∀ σ', step self σ σ' → same_grid self σ σ'.
Proof.
  intros Hr. apply reachable_built in Hr as Hb.
  split; [by apply grid_built_described|].
  intros σ' Hstep. apply step_extends in Hstep.
  destruct Hb as (Hx & Hy & Hgx & Hgy & _).
  repeat split.
  - by rewrite Hx; eapply denote_extends.
  - by rewrite Hy; eapply denote_extends.
  - by rewrite Hgx; eapply denote_extends.
  - by rewrite Hgy; eapply denote_extends.
Qed.

(** ** The dataset is only read *)

Lemma frames_read_only dataset (m : M value) :
  (∀ base, frames base m (fresh base)) → read_only dataset m.
Proof.
  intros Hm σ.
  pose proof (frames_runs σ m σ (Hm σ) (extends_refl σ)) as He.
  split; [done|]. intros key v a _ Hd. by eapply denote_extends.
Qed.

(** C9: no public operation changes an array that exists when it is
    called; the arrays of the dataset are among them, and the mapping
    itself is passed by value. *)
Theorem dataset_read_only self dataset
    xi_spin sigma_spin sigma_1 sigma_2 amax alpha_chi beta_chi
    alpha_chi_1 alpha_chi_2 beta_chi_1 beta_chi_2 amax_1 amax_2
    mu_chi_eff sigma_chi_eff mu_chi_p sigma_chi_p spin_covariance :
  read_only dataset
    (iid_spin dataset xi_spin sigma_spin amax alpha_chi beta_chi) ∧
  read_only dataset
    (iid_spin_magnitude_beta dataset amax alpha_chi beta_chi) ∧
  read_only dataset
    (independent_spin_magnitude_beta dataset
       alpha_chi_1 alpha_chi_2 beta_chi_1 beta_chi_2 amax_1 amax_2) ∧
  read_only dataset
    (iid_spin_orientation_gaussian_isotropic dataset xi_spin sigma_spin) ∧
  read_only dataset
    (independent_spin_orientation_gaussian_isotropic dataset
       xi_spin sigma_1 sigma_2) ∧
  read_only dataset (gaussian_chi_eff dataset mu_chi_eff sigma_chi_eff) ∧
  read_only dataset (gaussian_chi_p dataset mu_chi_p sigma_chi_p) ∧
  read_only dataset
    (__call__ self dataset
       mu_chi_eff sigma_chi_eff mu_chi_p sigma_chi_p spin_covariance).
Proof.
  split_and!; apply frames_read_only; intros base.
  - apply iid_spin_frames.
  - apply independent_spin_magnitude_beta_frames.
  - apply independent_spin_magnitude_beta_frames.
  - apply independent_spin_orientation_gaussian_isotropic_frames.
  - apply independent_spin_orientation_gaussian_isotropic_frames.
  - apply gaussian_chi_eff_frames.
  - apply gaussian_chi_p_frames.
  - apply __call___frames.
Qed.

(** ** The normalization of the correlated model *)

Lemma runs_bind_raise base σ (m : M value) (k : value → M value) e :
  extends base σ → evals m σ (Raise e) → runs base (m ≫= k) σ (Raise e).
Proof.
  intros Hb Hm.
  apply (runs_bind base σ m k (Raise e) (λ _, Raise e) Hb Hm).
  by intros v a σ' _ _ _ [=].
Qed.

Lemma runs_raise base (m : M value) σ e :
  runs base m σ (Raise e) → (m σ).1 = Raise e.
Proof. intros [_ H]. destruct (m σ).1; [done|by subst]. Qed.

(** [trapz] of a [k] by [n] array against [m] abscissae: the [m - 1]
    spacings do not broadcast against the [n - 1] trapezoids of a row. *)
Lemma nd_trapz_mismatch y x (k n m : nat) :
  shape y = [k; n] → shape x = [m] →
  broadcast_shapes [1%nat; (m - 1)%nat] [k; (n - 1)%nat] = None →
  nd_trapz y x = Raise ValueError.
Proof.
  intros Hy Hx Hb. unfold nd_trapz, trapz_spacing, nd_diff.
  rewrite Hx, Hy. rewrite decide_True by done.
  change (reverse [m]) with [m]. cbn [mbind res_bind shape data].
  unfold nd_tail_last, nd_init_last. rewrite Hy.
  change (reverse [k; n]) with [n; k]. cbn [mbind res_bind].
  unfold nd_binop at 3. cbn [shape].
  rewrite broadcast_shapes_same. cbn [mbind res_bind].
  unfold nd_binop at 2. cbn [shape].
  change (replicate (length [k; n] - 1) 1%nat ++ reverse [] ++ [(m - 1)%nat])
    with [1%nat; (m - 1)%nat].
  change (reverse [k] ++ [(n - 1)%nat]) with [k; (n - 1)%nat].
  by rewrite Hb.
Qed.

Lemma grid_valid self σ : grid_built self σ → valid σ (normalization_data self).
Proof.
  intros (_ & _ & Hgx & Hgy & ->).
  apply map_Forall_insert_2; [by eexists|].
  apply map_Forall_singleton. by eexists.
Qed.

(** The grid arrays are arrays, not Python numbers. *)
Lemma grid_numpy self σ :
  grid_built self σ →
  py_entry (normalization_data self) "chi_eff" &&
  py_entry (normalization_data self) "chi_p" = false.
Proof.
  intros (_ & _ & Hgx & _ & Hnd).
  destruct (nd_meshgrid_outer_product
              (nd_linspace (-1) 1 100) (nd_linspace 0 1 50))
    as (Hs1 & _).
  unfold py_entry at 1. rewrite Hnd, lookup_insert_eq.
  destruct (chi_eff_grid self) as [z|z|l]; [|done|done].
  cbn [denote] in Hgx.
  assert (shape (scalar z) =
          shape (nd_meshgrid (nd_linspace (-1) 1 100) (nd_linspace 0 1 50)).1)
    as Hsh by congruence.
  rewrite Hs1 in Hsh. discriminate Hsh.
Qed.

Lemma _normalization_raises self σ
    mu_chi_eff sigma_chi_eff mu_chi_p sigma_chi_p spin_covariance :
  grid_built self σ →
  evals (_normalization self
           mu_chi_eff sigma_chi_eff mu_chi_p sigma_chi_p spin_covariance) σ
        (Raise ValueError).
Proof.
  intros Hg. pose proof (grid_valid self σ Hg) as Hv.
  pose proof (grid_numpy self σ Hg) as Hpy.
  destruct Hg as (Hx & Hy & Hgx & Hgy & Hnd).
  set (x := nd_linspace (-1) 1 100) in *. set (y := nd_linspace 0 1 50) in *.
  destruct (nd_meshgrid_outer_product x y) as (Hs1 & Hs2 & Hw1 & Hw2 & _).
  destruct (_2d_probability_numpy self σ (normalization_data self)
              (nd_meshgrid x y).1 (nd_meshgrid x y).2
              mu_chi_eff sigma_chi_eff mu_chi_p sigma_chi_p spin_covariance)
    as (prob & Hprob & Hsp); try assumption.
  { apply (lookup_nd_Some _ _ _ (chi_eff_grid self)); [|done].
    rewrite Hnd. apply lookup_insert_eq. }
  { apply (lookup_nd_Some _ _ _ (chi_p_grid self)); [|done].
    rewrite Hnd. rewrite lookup_insert_ne by done. apply lookup_singleton_eq. }
  unfold _normalization, evals.
  eapply runs_bind_ok; [apply extends_refl|exact Hprob|].
  intros v σ1 He1 _ Hd1.
  apply runs_bind_raise; [done|].
  apply (denote_extends _ _ _ _ He1) in Hy.
  rewrite <- (nd_trapz_mismatch prob y 50 100 50).
  - by eapply evals_trapz.
  - rewrite Hsp, Hs1. unfold x, y. by rewrite !nd_linspace_length.
  - done.
  - by vm_compute.
Qed.

(** With a non-zero covariance, a call that gets as far as the
    normalization raises [ValueError] there. *)
Lemma __call___correlated_raises self σ dataset p
    mu_chi_eff sigma_chi_eff mu_chi_p sigma_chi_p spin_covariance :
  grid_built self σ → spin_covariance ≠ 0 →
  evals (_2d_probability self dataset
           mu_chi_eff sigma_chi_eff mu_chi_p sigma_chi_p spin_covariance) σ
        (Ok p) →
  evals (__call__ self dataset
           mu_chi_eff sigma_chi_eff mu_chi_p sigma_chi_p spin_covariance) σ
        (Raise ValueError).
Proof.
  intros Hg Hc Hp. unfold __call__, evals.
  rewrite bool_decide_eq_false_2 by done.
  eapply runs_bind_ok; [apply extends_refl|exact Hp|].
  intros prob σ1 He1 _ Hd1.
  apply runs_bind_raise; [done|].
  apply _normalization_raises. by eapply grid_built_extends.
Qed.

(** With a non-zero covariance no call returns, whatever the dataset. *)
Lemma __call___correlated_never_returns self σ dataset
    mu_chi_eff sigma_chi_eff mu_chi_p sigma_chi_p spin_covariance :
  grid_built self σ → spin_covariance ≠ 0 →
  ∃ e, (__call__ self dataset
          mu_chi_eff sigma_chi_eff mu_chi_p sigma_chi_p spin_covariance σ).1
       = Raise e.
Proof.
  intros Hg Hc. unfold __call__.
  rewrite bool_decide_eq_false_2 by done. rewrite bind_run.
  pose proof (frames_runs σ _ σ
    (_2d_probability_frames σ self dataset
       mu_chi_eff sigma_chi_eff mu_chi_p sigma_chi_p spin_covariance)
    (extends_refl σ)) as He.
  destruct (_2d_probability self dataset _ _ _ _ _ σ) as [[prob|e] σ1];
    [|by exists e].
  simpl in He. rewrite bind_run.
  pose proof (runs_raise _ _ _ _
    (_normalization_raises self σ1
       mu_chi_eff sigma_chi_eff mu_chi_p sigma_chi_p spin_covariance
       (grid_built_extends _ _ _ He Hg))) as Hn.
  destruct (_normalization self _ _ _ _ _ σ1) as [[n|e] σ2]; simpl in Hn;
    [done|].
  by exists e.
Qed.

(** ** The sample data *)

Lemma sample_valid : valid sample_store sample_dataset.
Proof.
  unfold valid, sample_dataset.
  repeat (apply map_Forall_insert_2; [by eexists|]).
  apply map_Forall_empty.
Qed.

(** C1 (the code does not do this): a new instance called on the sample
    dataset with [spin_covariance = 1/2] does not return a normalized
    density; it raises [ValueError] in the inner [xp.trapz], which
    integrates the 50 by 100 grid along its last axis, of 100 entries,
    against the 50 [chi_p] abscissae. *)
Theorem correlated_call_example_raises :
  (correlated_call_example sample_store).1 = Raise ValueError.
Proof.
  unfold correlated_call_example. rewrite bind_run.
  destruct (__init___run sample_store) as (self & σ & -> & He & Hg).
  cbv beta iota. apply (runs_raise σ).
  eapply __call___correlated_raises; [done|lra|].
  eapply (_2d_probability_same_shape self σ sample_dataset
            sample_chi_eff sample_chi_p).
  - eapply valid_extends; [done|apply sample_valid].
  - apply (lookup_nd_Some _ _ _ (VArr 4)); [done|].
    by apply (denote_extends sample_store).
  - apply (lookup_nd_Some _ _ _ (VArr 5)); [done|].
    by apply (denote_extends sample_store).
  - done.
  - done.
  - done.
  - simpl. lra.
Qed.

(** ** Which primitives a model calls *)

Lemma emits_nothing {A} (P : extcall → Prop) (m : M A) :
  (∀ σ, calls (m σ).2 = calls σ) → emits P m.
Proof. intros H σ. exists []. by rewrite H, app_nil_r. Qed.

Lemma emits_no_call {A} (m : M A) σ :
  emits no_call m → calls (m σ).2 = calls σ.
Proof.
  intros H. destruct (H σ) as ([|c made] & Hc & Hall).
  - by rewrite Hc, app_nil_r.
  - by inversion Hall.
Qed.

Lemma emits_weaken {A} (P Q : extcall → Prop) (m : M A) :
  (∀ c, P c → Q c) → emits P m → emits Q m.
Proof.
  intros HPQ H σ. destruct (H σ) as (made & Hc & Hall).
  exists made. split; [done|]. by eapply Forall_impl.
Qed.

Lemma emits_ret {A} P (x : A) : emits P (mret x).
Proof. by apply emits_nothing. Qed.

Lemma emits_bind {A B} P (m : M A) (k : A → M B) :
  emits P m → (∀ x, emits P (k x)) → emits P (m ≫= k).
Proof.
  intros Hm Hk σ. rewrite bind_run.
  destruct (Hm σ) as (made1 & Hc1 & Hall1).
  destruct (m σ) as [[x|e] σ1]; simpl in *; [|by exists made1].
  destruct (Hk x σ1) as (made2 & Hc2 & Hall2).
  exists (made1 ++ made2). split.
  - by rewrite Hc2, Hc1, app_assoc.
  - by apply Forall_app.
Qed.

Lemma emits_lift {A} P (r : res A) : emits P (lift r).
Proof. by apply emits_nothing. Qed.

Lemma emits_getitem P dataset key : emits P (getitem dataset key).
Proof. apply emits_lift. Qed.

Lemma emits_to_array P v : emits P (to_array v).
Proof.
  apply emits_nothing. intros σ. destruct v as [x|x|l]; simpl; [done|done|].
  unfold load. by destruct (heap σ !! l).
Qed.

Lemma emits_of_array P a : emits P (of_array a).
Proof. apply emits_nothing. intros σ. apply of_array_calls. Qed.

Lemma emits_store P l a : emits P (store l a).
Proof. by apply emits_nothing. Qed.

Lemma emits_log (P : extcall → Prop) c : P c → emits P (log c).
Proof. intros Hc σ. exists [c]. split; [done|]. by constructor. Qed.

Ltac emit_leaf :=
  first
    [ apply emits_getitem
    | apply emits_to_array
    | apply emits_of_array
    | apply emits_store
    | apply emits_lift
    | apply emits_ret
    | apply emits_log; exact I ].

Ltac emit_steps :=
  repeat (eapply emits_bind; [emit_leaf | intros ?]); try emit_leaf.

Lemma emits_np_binop P f v1 v2 : emits P (np_binop f v1 v2).
Proof. unfold np_binop. emit_steps. Qed.

Lemma emits_np_unop P f v : emits P (np_unop f v).
Proof. unfold np_unop. emit_steps. Qed.

Lemma emits_np_inplace P f (l : nat) v2 : emits P (np_inplace f l v2).
Proof.
  unfold np_inplace.
  eapply emits_bind; [apply (emits_to_array P (VArr l))|intros a].
  emit_steps.
Qed.

Lemma emits_binop P f v1 v2 : emits P (py_binop f v1 v2).
Proof.
  destruct v1 as [x|x|l], v2 as [y|y|m]; try apply emits_np_binop.
  apply emits_ret.
Qed.

Lemma emits_unop P f v : emits P (py_unop f v).
Proof. destruct v as [x|x|l]; try apply emits_np_unop. apply emits_ret. Qed.

Lemma emits_ibinop P f v1 v2 : emits P (py_ibinop f v1 v2).
Proof.
  destruct v1 as [x|x|l]; try apply emits_binop. apply emits_np_inplace.
Qed.

Lemma emits_truediv P v1 v2 : emits P (py_truediv v1 v2).
Proof.
  destruct v1 as [x|x|l], v2 as [y|y|m]; try apply emits_np_binop.
  cbn [py_truediv]. case_decide; [apply emits_lift|apply emits_ret].
Qed.

Lemma emits_itruediv P v1 v2 : emits P (py_itruediv v1 v2).
Proof.
  destruct v1 as [x|x|l]; try apply emits_truediv. apply emits_np_inplace.
Qed.

Lemma emits_trapz P vy vx : emits P (xp_trapz vy vx).
Proof. unfold xp_trapz. emit_steps. Qed.

Lemma emits_beta_dist v alpha beta scale :
  emits is_beta_dist (beta_dist v alpha beta scale).
Proof. unfold beta_dist. emit_steps. Qed.

Lemma emits_truncnorm v mu sigma high low :
  emits is_truncnorm (truncnorm v mu sigma high low).
Proof. unfold truncnorm. emit_steps. Qed.

Ltac emit_leaf' :=
  first
    [ apply emits_binop
    | apply emits_unop
    | apply emits_np_unop
    | apply emits_ibinop
    | apply emits_truediv
    | apply emits_itruediv
    | apply emits_trapz
    | apply emits_beta_dist
    | apply emits_truncnorm
    | emit_leaf ].

Ltac emit_steps' :=
  repeat (eapply emits_bind; [emit_leaf' | intros ?]); try emit_leaf'.

Lemma emits_independent_spin_magnitude_beta dataset
    alpha_chi_1 alpha_chi_2 beta_chi_1 beta_chi_2 amax_1 amax_2 :
  emits is_beta_dist
    (independent_spin_magnitude_beta dataset
       alpha_chi_1 alpha_chi_2 beta_chi_1 beta_chi_2 amax_1 amax_2).
Proof.
  unfold independent_spin_magnitude_beta.
  destruct (_ || _); [apply emits_ret|]. emit_steps'.
Qed.

Lemma emits_independent_spin_orientation_gaussian_isotropic dataset
    xi_spin sigma_1 sigma_2 :
  emits is_truncnorm
    (independent_spin_orientation_gaussian_isotropic dataset
       xi_spin sigma_1 sigma_2).
Proof. unfold independent_spin_orientation_gaussian_isotropic. emit_steps'. Qed.

Lemma emits_gaussian_chi_eff dataset mu_chi_eff sigma_chi_eff :
  emits is_truncnorm (gaussian_chi_eff dataset mu_chi_eff sigma_chi_eff).
Proof. unfold gaussian_chi_eff. emit_steps'. Qed.

Lemma emits_gaussian_chi_p dataset mu_chi_p sigma_chi_p :
  emits is_truncnorm (gaussian_chi_p dataset mu_chi_p sigma_chi_p).
Proof. unfold gaussian_chi_p. emit_steps'. Qed.

Lemma emits__2d_probability P self dataset
    mu_chi_eff sigma_chi_eff mu_chi_p sigma_chi_p spin_covariance :
  emits P (_2d_probability self dataset
             mu_chi_eff sigma_chi_eff mu_chi_p sigma_chi_p spin_covariance).
Proof. unfold _2d_probability. emit_steps'. Qed.

Lemma emits__normalization P self
    mu_chi_eff sigma_chi_eff mu_chi_p sigma_chi_p spin_covariance :
  emits P (_normalization self
             mu_chi_eff sigma_chi_eff mu_chi_p sigma_chi_p spin_covariance).
Proof.
  unfold _normalization.
  eapply emits_bind; [apply emits__2d_probability|intros prob].
  emit_steps'.
Qed.

Lemma emits___call___correlated P self dataset
    mu_chi_eff sigma_chi_eff mu_chi_p sigma_chi_p spin_covariance :
  spin_covariance ≠ 0 →
  emits P (__call__ self dataset
             mu_chi_eff sigma_chi_eff mu_chi_p sigma_chi_p spin_covariance).
Proof.
  intros Hc. unfold __call__. rewrite bool_decide_eq_false_2 by done.
  eapply emits_bind; [apply emits__2d_probability|intros prob].
  eapply emits_bind; [apply emits__normalization|intros norm].
  emit_steps'.
Qed.

Lemma emits___call__ self dataset
    mu_chi_eff sigma_chi_eff mu_chi_p sigma_chi_p spin_covariance :
  emits is_truncnorm
    (__call__ self dataset
       mu_chi_eff sigma_chi_eff mu_chi_p sigma_chi_p spin_covariance).
Proof.
  destruct (decide (spin_covariance = 0)) as [->|Hc];
    [|by apply emits___call___correlated].
  unfold __call__. rewrite bool_decide_eq_true_2 by done.
  eapply emits_bind; [apply emits_gaussian_chi_eff|intros prob].
  eapply emits_bind; [apply emits_gaussian_chi_p|intros factor].
  emit_steps'.
Qed.

(** X1: each model calls only the primitive it is written with: the
    magnitude models only [beta_dist]; the orientation models, the two
    marginals and [__call__] only [truncnorm]. *)
Theorem models_call_their_own_primitive self dataset
    xi_spin sigma_spin sigma_1 sigma_2 amax alpha_chi beta_chi
    alpha_chi_1 alpha_chi_2 beta_chi_1 beta_chi_2 amax_1 amax_2
    mu_chi_eff sigma_chi_eff mu_chi_p sigma_chi_p spin_covariance :
  emits is_beta_dist
    (independent_spin_magnitude_beta dataset
       alpha_chi_1 alpha_chi_2 beta_chi_1 beta_chi_2 amax_1 amax_2) ∧
  emits is_beta_dist
    (iid_spin_magnitude_beta dataset amax alpha_chi beta_chi) ∧
  emits is_truncnorm
    (independent_spin_orientation_gaussian_isotropic dataset
       xi_spin sigma_1 sigma_2) ∧
  emits is_truncnorm
    (iid_spin_orientation_gaussian_isotropic dataset xi_spin sigma_spin) ∧
  emits is_truncnorm (gaussian_chi_eff dataset mu_chi_eff sigma_chi_eff) ∧
  emits is_truncnorm (gaussian_chi_p dataset mu_chi_p sigma_chi_p) ∧
  emits is_truncnorm
    (__call__ self dataset
       mu_chi_eff sigma_chi_eff mu_chi_p sigma_chi_p spin_covariance).
Proof.
  split_and!.
  - apply emits_independent_spin_magnitude_beta.
  - apply emits_independent_spin_magnitude_beta.
  - apply emits_independent_spin_orientation_gaussian_isotropic.
  - apply emits_independent_spin_orientation_gaussian_isotropic.
  - apply emits_gaussian_chi_eff.
  - apply emits_gaussian_chi_p.
  - apply emits___call__.
Qed.

(** X2: the correlated branch is computed without the density
    primitives: [_2d_probability] and [_normalization] call none, and
    neither does [__call__] when [spin_covariance] is not 0. *)
Theorem correlated_branch_calls_no_primitive self dataset σ
    mu_chi_eff sigma_chi_eff mu_chi_p sigma_chi_p spin_covariance :
  spin_covariance ≠ 0 →
  calls (_2d_probability self dataset
           mu_chi_eff sigma_chi_eff mu_chi_p sigma_chi_p spin_covariance σ).2
  = calls σ ∧
  calls (_normalization self
           mu_chi_eff sigma_chi_eff mu_chi_p sigma_chi_p spin_covariance σ).2
  = calls σ ∧
  calls (__call__ self dataset
           mu_chi_eff sigma_chi_eff mu_chi_p sigma_chi_p spin_covariance σ).2
  = calls σ.
Proof.
  intros Hc. split_and!; apply emits_no_call.
  - apply emits__2d_probability.
  - apply emits__normalization.
  - by apply emits___call___correlated.
Qed.

(** X3: with a negative shape parameter [iid_spin] never calls
    [beta_dist]: the only calls it makes are those of the orientation
    model to [truncnorm]. *)
Theorem iid_spin_negative_calls dataset
    xi_spin sigma_spin amax alpha_chi beta_chi :
  alpha_chi < 0 ∨ beta_chi < 0 →
  emits is_truncnorm
    (iid_spin dataset xi_spin sigma_spin amax alpha_chi beta_chi).
Proof.
  intros Hneg. unfold iid_spin, iid_spin_orientation_gaussian_isotropic.
  eapply emits_bind;
    [apply emits_independent_spin_orientation_gaussian_isotropic|intros o].
  eapply emits_bind; [|intros m; emit_steps'].
  apply emits_nothing. intros σ. unfold iid_spin_magnitude_beta.
  rewrite independent_spin_magnitude_beta_early_exit; [done|].
  apply negative_shape_guard. clear -Hneg. tauto.
Qed.

(** ** Missing keys and failing primitives *)

Lemma getitem_missing {B} dataset key (k : value → M B) σ :
  dataset !! key = None →
  (getitem dataset key ≫= k) σ = (Raise (KeyError key), σ).
Proof. intros H. rewrite bind_run. unfold getitem, lift. by rewrite H. Qed.

Lemma getitem_found {B} dataset key v (k : value → M B) σ :
  dataset !! key = Some v → (getitem dataset key ≫= k) σ = k v σ.
Proof. intros H. rewrite bind_run. unfold getitem, lift. by rewrite H. Qed.

(** X4: with shape parameters that pass the guard, a dataset without
    [a_1] makes [independent_spin_magnitude_beta] raise [KeyError] for
    [a_1]; nothing is computed: the state is as before. *)
Theorem independent_spin_magnitude_beta_missing_a_1 σ dataset
    alpha_chi_1 alpha_chi_2 beta_chi_1 beta_chi_2 amax_1 amax_2 :
  0 <= alpha_chi_1 → 0 <= beta_chi_1 → 0 <= alpha_chi_2 → 0 <= beta_chi_2 →
  dataset !! "a_1" = None →
  independent_spin_magnitude_beta dataset
    alpha_chi_1 alpha_chi_2 beta_chi_1 beta_chi_2 amax_1 amax_2 σ
  = (Raise (KeyError "a_1"), σ).
Proof.
  intros Ha1 Hb1 Ha2 Hb2 Hk. unfold independent_spin_magnitude_beta.
  rewrite !bool_decide_eq_false_2 by lra. cbn [orb].
  by apply getitem_missing.
Qed.

(** X5: [iid_spin] reads the tilts first: on a dataset without
    [cos_tilt_1] it raises [KeyError] for [cos_tilt_1] and leaves the
    state as it was, whatever the hyper-parameters -- a negative shape
    parameter does not turn the error into a zero. *)
Theorem iid_spin_missing_cos_tilt_1 σ dataset
    xi_spin sigma_spin amax alpha_chi beta_chi :
  dataset !! "cos_tilt_1" = None →
  iid_spin dataset xi_spin sigma_spin amax alpha_chi beta_chi σ
  = (Raise (KeyError "cos_tilt_1"), σ).
Proof.
  intros Hk. unfold iid_spin, iid_spin_orientation_gaussian_isotropic,
    independent_spin_orientation_gaussian_isotropic.
  rewrite bind_run. by rewrite getitem_missing.
Qed.

(** X6: on a dataset without [chi_eff], [__call__] raises [KeyError] for
    [chi_eff] in both branches, for any instance, and leaves the state as
    it was. *)
Theorem __call___missing_chi_eff self σ dataset
    mu_chi_eff sigma_chi_eff mu_chi_p sigma_chi_p spin_covariance :
  dataset !! "chi_eff" = None →
  __call__ self dataset
    mu_chi_eff sigma_chi_eff mu_chi_p sigma_chi_p spin_covariance σ
  = (Raise (KeyError "chi_eff"), σ).
Proof.
  intros Hk. unfold __call__. case_bool_decide.
  - unfold gaussian_chi_eff. rewrite bind_run. by rewrite getitem_missing.
  - unfold _2d_probability. rewrite bind_run. by rewrite getitem_missing.
Qed.

Lemma evals_result (m : M value) σ r :
  evals m σ r →
  match (m σ).1 with
  | Ok _ => ∃ a, r = Ok a
  | Raise e => r = Raise e
  end.
Proof.
  intros [_ H]. destruct (m σ).1, r; try done; [by eexists|by subst].
Qed.

(** X7: past the guard, [independent_spin_magnitude_beta] calls
    [beta_dist] on [a_1] first, and on [a_2] only if the first call
    returned and the dataset has [a_2]; it makes no other call. *)
Theorem independent_spin_magnitude_beta_calls σ dataset v_1 a_1
    alpha_chi_1 alpha_chi_2 beta_chi_1 beta_chi_2 amax_1 amax_2 :
  valid σ dataset →
  0 <= alpha_chi_1 → 0 <= beta_chi_1 → 0 <= alpha_chi_2 → 0 <= beta_chi_2 →
  dataset !! "a_1" = Some v_1 → denote σ v_1 = Some a_1 →
  calls (independent_spin_magnitude_beta dataset
           alpha_chi_1 alpha_chi_2 beta_chi_1 beta_chi_2 amax_1 amax_2 σ).2
  = calls σ ++
      CallBetaDist a_1 alpha_chi_1 beta_chi_1 amax_1 ::
      match beta_dist_impl a_1 alpha_chi_1 beta_chi_1 amax_1,
            lookup_nd σ dataset "a_2" with
      | Ok _, Ok a_2 => [CallBetaDist a_2 alpha_chi_2 beta_chi_2 amax_2]
      | _, _ => []
      end.
Proof.
  intros Hv Ha1 Hb1 Ha2 Hb2 Hk1 Hd1. unfold independent_spin_magnitude_beta.
  rewrite !bool_decide_eq_false_2 by lra. cbn [orb].
  rewrite (getitem_found _ _ v_1) by done. rewrite bind_run.
  pose proof (beta_dist_calls v_1 a_1 alpha_chi_1 beta_chi_1 amax_1 σ Hd1)
    as Hc1.
  pose proof (evals_beta_dist v_1 a_1 alpha_chi_1 beta_chi_1 amax_1 σ Hd1)
    as He1.
  pose proof (evals_result _ _ _ He1) as Hr1. destruct He1 as [Hext _].
  destruct (beta_dist v_1 alpha_chi_1 beta_chi_1 amax_1 σ)
    as [[p_1|e] σ1]; simpl in *.
  - destruct Hr1 as [b_1 ->]. unfold lookup_nd.
    destruct (dataset !! "a_2") as [v_2|] eqn:Hk2.
    + rewrite (getitem_found _ _ v_2) by done. rewrite bind_run.
      destruct (Hv "a_2" v_2 Hk2) as [a_2 Hd2]. rewrite Hd2.
      apply (denote_extends _ _ _ _ Hext) in Hd2.
      pose proof (beta_dist_calls v_2 a_2 alpha_chi_2 beta_chi_2 amax_2 σ1 Hd2)
        as Hc2.
      destruct (beta_dist v_2 alpha_chi_2 beta_chi_2 amax_2 σ1)
        as [[p_2|e] σ2]; simpl in *.
      * rewrite (emits_no_call (prior ← py_mul p_1 p_2; mret prior))
          by (eapply emits_bind; [apply emits_binop|intros ?; apply emits_ret]).
        by rewrite Hc2, Hc1, <- app_assoc.
      * by rewrite Hc2, Hc1, <- app_assoc.
    + rewrite getitem_missing by done. simpl. by rewrite Hc1.
  - rewrite Hr1. by rewrite Hc1.
Qed.

(** ** The two marginals *)

(** X8: [gaussian_chi_eff] hands on what [truncnorm] gives -- array or
    exception -- for [dataset["chi_eff"]] with bounds [[-1, 1]], and
    [gaussian_chi_p] for [dataset["chi_p"]] with bounds [[0, 1]]. *)
Theorem gaussian_marginals σ dataset v_eff v_p a b
    mu_chi_eff sigma_chi_eff mu_chi_p sigma_chi_p :
  valid σ dataset →
  dataset !! "chi_eff" = Some v_eff → denote σ v_eff = Some a →
  dataset !! "chi_p" = Some v_p → denote σ v_p = Some b →
  evals (gaussian_chi_eff dataset mu_chi_eff sigma_chi_eff) σ
        (TruncGaussian a mu_chi_eff sigma_chi_eff (-1) 1) ∧
  evals (gaussian_chi_p dataset mu_chi_p sigma_chi_p) σ
        (TruncGaussian b mu_chi_p sigma_chi_p 0 1).
Proof.
  intros Hv Hk1 Hd1 Hk2 Hd2. split.
  - pose proof (gaussian_chi_eff_evals σ dataset mu_chi_eff sigma_chi_eff Hv)
      as H.
    by rewrite (lookup_nd_Some _ _ _ _ _ Hk1 Hd1) in H.
  - pose proof (gaussian_chi_p_evals σ dataset mu_chi_p sigma_chi_p Hv) as H.
    by rewrite (lookup_nd_Some _ _ _ _ _ Hk2 Hd2) in H.
Qed.

(** ** [iid_spin] as a whole *)

Lemma iid_spin_evals σ dataset xi_spin sigma_spin amax alpha_chi beta_chi :
  valid σ dataset →
  evals (iid_spin dataset xi_spin sigma_spin amax alpha_chi beta_chi) σ
    (o ← independent_spin_orientation_gaussian_isotropic_nd
           (lookup_nd σ dataset "cos_tilt_1") (lookup_nd σ dataset "cos_tilt_2")
           xi_spin sigma_spin sigma_spin;
     m ← independent_spin_magnitude_beta_nd
           (lookup_nd σ dataset "a_1") (lookup_nd σ dataset "a_2")
           alpha_chi alpha_chi beta_chi beta_chi amax amax;
     nd_binop Rmult o m).
Proof.
  intros Hv. unfold iid_spin, evals.
  eapply runs_bind;
    [apply extends_refl
    |by apply independent_spin_orientation_gaussian_isotropic_evals|].
  intros v_o o σ1 He1 _ Hd1 _. cbv beta.
  eapply runs_bind; [exact He1| |].
  - rewrite <- !(lookup_nd_extends σ σ1) by done.
    apply independent_spin_magnitude_beta_evals. by eapply valid_extends.
  - intros v_m m σ2 He2 _ Hd2 _. cbv beta.
    apply (denote_extends _ _ _ _ He2) in Hd1.
    apply runs_bind_ret, runs_of_evals; [by eapply extends_trans|].
    by eapply evals_binop.
Qed.

(** X9: what [iid_spin] computes depends on the contents of the dataset
    only: run again later, in a store with more arrays and calls in it,
    it computes the same. *)
Theorem iid_spin_repeatable σ σ' dataset
    xi_spin sigma_spin amax alpha_chi beta_chi r :
  valid σ dataset → extends σ σ' →
  evals (iid_spin dataset xi_spin sigma_spin amax alpha_chi beta_chi) σ r →
  evals (iid_spin dataset xi_spin sigma_spin amax alpha_chi beta_chi) σ' r.
Proof.
  intros Hv He H.
  rewrite (runs_det _ _ _ _ _ H (iid_spin_evals σ dataset _ _ _ _ _ Hv)).
  rewrite <- !(lookup_nd_extends σ σ') by done.
  apply iid_spin_evals. by eapply valid_extends.
Qed.

(** X10: with a negative shape parameter [iid_spin] does not return the
    number 0 of the magnitude model but an array of zeros, of the shape
    of the orientation density. *)
Theorem iid_spin_negative_zeros σ dataset
    xi_spin sigma_spin amax alpha_chi beta_chi orientation :
  valid σ dataset →
  alpha_chi < 0 ∨ beta_chi < 0 →
  evals (iid_spin_orientation_gaussian_isotropic dataset xi_spin sigma_spin) σ
        (Ok orientation) →
  wf orientation →
  evals (iid_spin dataset xi_spin sigma_spin amax alpha_chi beta_chi) σ
        (Ok (nd_map (λ _, 0) orientation)).
Proof.
  intros Hv Hneg Ho Hw.
  pose proof (iid_spin_evals σ dataset
                xi_spin sigma_spin amax alpha_chi beta_chi Hv) as H.
  unfold evals, iid_spin_orientation_gaussian_isotropic in Ho.
  rewrite <- (runs_det _ _ _ _ _ Ho
    (independent_spin_orientation_gaussian_isotropic_evals σ dataset
       xi_spin sigma_spin sigma_spin Hv)) in H.
  cbn [mbind res_bind] in H.
  unfold independent_spin_magnitude_beta_nd in H.
  rewrite (proj2 (negative_shape_guard alpha_chi alpha_chi beta_chi beta_chi))
    in H by (clear -Hneg; tauto).
  cbn [mbind res_bind] in H. rewrite nd_binop_scalar_r in H by done.
  replace (nd_map (λ _, 0) orientation)
    with (nd_map (λ x, x * 0) orientation); [done|].
  unfold nd_map. f_equal. apply List.map_ext. intros x. ring.
Qed.

(** ** The mixture at its two ends *)

Lemma zip_with_const (c : R) (xs ys : list R) :
  length xs = length ys →
  zip_with (λ _ _, c) xs ys = replicate (length xs) c.
Proof.
  revert ys. induction xs as [|x xs IH]; intros [|y ys] Hl; simpl in *;
    try done.
  rewrite IH; [done|lia].
Qed.

(** X11: with [xi_spin = 0] the orientation density is the constant
    [1/4], on the shape of the truncated Gaussians (which are still
    computed); with [xi_spin = 1] it is their entrywise product. *)
Theorem independent_spin_orientation_gaussian_isotropic_ends
    σ dataset v_1 v_2 c_1 c_2 t_1 t_2 sigma_1 sigma_2 :
  valid σ dataset →
  dataset !! "cos_tilt_1" = Some v_1 → dataset !! "cos_tilt_2" = Some v_2 →
  denote σ v_1 = Some c_1 → denote σ v_2 = Some c_2 →
  TruncGaussian c_1 1 sigma_1 (-1) 1 = Ok t_1 →
  TruncGaussian c_2 1 sigma_2 (-1) 1 = Ok t_2 →
  wf t_1 → wf t_2 → shape t_1 = shape t_2 →
  evals (independent_spin_orientation_gaussian_isotropic dataset
           0 sigma_1 sigma_2) σ
        (Ok (NdArray (shape t_1) (replicate (size_of (shape t_1)) (1 / 4)))) ∧
  evals (independent_spin_orientation_gaussian_isotropic dataset
           1 sigma_1 sigma_2) σ
        (Ok (nd_zip Rmult t_1 t_2)).
Proof.
  intros Hv Hk1 Hk2 Hd1 Hd2 H1 H2 Hw1 Hw2 Hs.
  assert (∀ xi_spin,
    evals (independent_spin_orientation_gaussian_isotropic dataset
             xi_spin sigma_1 sigma_2) σ
          (Ok (nd_zip (spec_mixture xi_spin) t_1 t_2))) as Hmix.
  { intros xi_spin.
    pose proof (independent_spin_orientation_gaussian_isotropic_evals
                  σ dataset xi_spin sigma_1 sigma_2 Hv) as H.
    rewrite (lookup_nd_Some _ _ _ _ _ Hk1 Hd1) in H.
    rewrite (lookup_nd_Some _ _ _ _ _ Hk2 Hd2) in H.
    by rewrite (independent_spin_orientation_gaussian_isotropic_nd_same
                  _ _ t_1 t_2) in H. }
  split.
  - replace (NdArray (shape t_1) (replicate (size_of (shape t_1)) (1 / 4)))
      with (nd_zip (spec_mixture 0) t_1 t_2); [apply Hmix|].
    unfold nd_zip. f_equal. rewrite <- Hw1.
    rewrite <- zip_with_const with (ys := data t_2)
      by (unfold wf in *; congruence).
    apply zip_with_pointwise. intros x y. unfold spec_mixture, Rdiv. ring.
  - replace (nd_zip Rmult t_1 t_2)
      with (nd_zip (spec_mixture 1) t_1 t_2); [apply Hmix|].
    unfold nd_zip. f_equal.
    apply zip_with_pointwise. intros x y. unfold spec_mixture, Rdiv. ring.
Qed.

(** ** The update in place of the zero-covariance branch *)

Lemma runs_ibinop_arr base f (l : nat) v2 a b σ :
  extends base σ → length (heap base) ≤ l →
  heap σ !! l = Some a → denote σ v2 = Some b →
  runs base (py_ibinop f (VArr l) v2) σ (nd_ibinop f a b).
Proof.
  intros Hb Hl Ha Hv2. cbn [py_ibinop]. unfold np_inplace, runs.
  rewrite !bind_run.
  unfold load. rewrite Ha.
  rewrite !bind_run, (to_array_run _ _ _ Hv2).
  rewrite !bind_run. unfold lift.
  destruct (nd_ibinop f a b) as [c|e]; simpl; [|done].
  split; [by apply extends_store|].
  split; [done|]. apply list_lookup_insert_eq. by eapply lookup_lt_Some.
Qed.

Lemma call_zero_covariance_in_place self σ dataset
    mu_chi_eff sigma_chi_eff mu_chi_p sigma_chi_p p_eff p_p :
  valid σ dataset →
  evals (gaussian_chi_eff dataset mu_chi_eff sigma_chi_eff) σ (Ok p_eff) →
  evals (gaussian_chi_p dataset mu_chi_p sigma_chi_p) σ (Ok p_p) →
  shape p_eff ≠ [] →
  evals (__call__ self dataset
           mu_chi_eff sigma_chi_eff mu_chi_p sigma_chi_p 0) σ
        (nd_ibinop Rmult p_eff p_p).
Proof.
  intros Hv Heff Hp Hs. unfold __call__, evals.
  rewrite bool_decide_eq_true_2 by done.
  eapply runs_bind_ok; [apply extends_refl|exact Heff|].
  intros prob σ1 He1 Hf1 Hd1.
  eapply runs_bind_ok;
    [exact He1|by apply (gaussian_chi_p_stable σ σ1)|].
  intros factor σ2 He2 _ Hd2.
  apply (denote_extends _ _ _ _ He2) in Hd1.
  apply runs_bind_ret.
  destruct prob as [x|x|l].
  - simpl in Hd1. injection Hd1 as <-. done.
  - simpl in Hd1. injection Hd1 as <-. done.
  - apply runs_ibinop_arr; try done. by eapply extends_trans.
Qed.

Lemma broadcast_shapes_one_l (n : nat) :
  broadcast_shapes [1%nat] [n] = Some [n].
Proof.
  unfold broadcast_shapes. change (reverse [1%nat]) with [1%nat].
  change (reverse [n]) with [n]. cbn [broadcast_rev].
  unfold broadcast_dim. by repeat case_decide; subst.
Qed.

Lemma broadcast_shapes_one_r (n : nat) :
  broadcast_shapes [n] [1%nat] = Some [n].
Proof.
  unfold broadcast_shapes. change (reverse [1%nat]) with [1%nat].
  change (reverse [n]) with [n]. cbn [broadcast_rev].
  unfold broadcast_dim. by repeat case_decide; subst.
Qed.

Lemma broadcast_data_one (n : nat) (q : R) :
  broadcast_data [1%nat] [n] [q] = replicate n q.
Proof.
  cbn [broadcast_data]. case_decide; [simpl in *; lia|].
  case_decide.
  - by subst.
  - cbn [broadcast_data]. change [q] with (replicate 1 q).
    rewrite (concat_replicate_replicate n 1 q). by rewrite Nat.mul_1_r.
Qed.

(** X12: the update in place cannot grow its target.  When
    [gaussian_chi_eff] returns one entry and [gaussian_chi_p] returns
    [n] entries, [n] not 1, the call with [spin_covariance = 0] raises
    [ValueError], although the product of the two is defined (it has
    [n] entries). *)
Theorem call_zero_covariance_cannot_grow self σ dataset
    mu_chi_eff sigma_chi_eff mu_chi_p sigma_chi_p p_eff p_p (n : nat) :
  valid σ dataset →
  evals (gaussian_chi_eff dataset mu_chi_eff sigma_chi_eff) σ (Ok p_eff) →
  evals (gaussian_chi_p dataset mu_chi_p sigma_chi_p) σ (Ok p_p) →
  shape p_eff = [1%nat] → shape p_p = [n] → n ≠ 1%nat →
  evals (__call__ self dataset
           mu_chi_eff sigma_chi_eff mu_chi_p sigma_chi_p 0) σ
        (Raise ValueError) ∧
  ∃ c, nd_binop Rmult p_eff p_p = Ok c ∧ shape c = [n].
Proof.
  intros Hv Heff Hp Hs1 Hs2 Hn. split.
  - replace (Raise ValueError) with (nd_ibinop Rmult p_eff p_p).
    + apply call_zero_covariance_in_place; try done. by rewrite Hs1.
    + unfold nd_ibinop. rewrite Hs1, Hs2, broadcast_shapes_one_l.
      rewrite decide_False; [done|]. intros [= ->]. done.
  - unfold nd_binop. rewrite Hs1, Hs2, broadcast_shapes_one_l. by eexists.
Qed.

(** X13: the other way round it works: [n] entries from
    [gaussian_chi_eff] and a single entry [q] from [gaussian_chi_p] give
    the [n] entries, each multiplied by [q]. *)
Theorem call_zero_covariance_broadcasts_one self σ dataset
    mu_chi_eff sigma_chi_eff mu_chi_p sigma_chi_p p_eff p_p (n : nat) q :
  valid σ dataset →
  evals (gaussian_chi_eff dataset mu_chi_eff sigma_chi_eff) σ (Ok p_eff) →
  evals (gaussian_chi_p dataset mu_chi_p sigma_chi_p) σ (Ok p_p) →
  shape p_eff = [n] → wf p_eff → shape p_p = [1%nat] → data p_p = [q] →
  evals (__call__ self dataset
           mu_chi_eff sigma_chi_eff mu_chi_p sigma_chi_p 0) σ
        (Ok (nd_map (λ x, x * q) p_eff)).
Proof.
  intros Hv Heff Hp Hs1 Hw1 Hs2 Hq.
  replace (Ok (nd_map (λ x, x * q) p_eff)) with (nd_ibinop Rmult p_eff p_p).
  - apply call_zero_covariance_in_place; try done. by rewrite Hs1.
  - unfold nd_ibinop, nd_map.
    rewrite Hs1, Hs2, Hq, broadcast_shapes_one_r, decide_True by done.
    rewrite broadcast_data_one.
    rewrite broadcast_data_same by (unfold wf in Hw1; by rewrite Hw1, Hs1).
    rewrite zip_with_replicate_r; [done|].
    unfold wf in Hw1. rewrite Hw1, Hs1. simpl. lia.
Qed.

(** ** [_2d_probability] at the edges *)

Lemma nd_binop_mismatch f a b :
  broadcast_shapes (shape a) (shape b) = None → nd_binop f a b = Raise ValueError.
Proof. intros H. unfold nd_binop. by rewrite H. Qed.

(** X14: when the shapes of [chi_eff] and [chi_p] do not broadcast,
    [_2d_probability] raises [ValueError]. *)
Theorem _2d_probability_shape_mismatch self σ dataset v_eff v_p a b
    mu_chi_eff sigma_chi_eff mu_chi_p sigma_chi_p spin_covariance :
  valid σ dataset →
  dataset !! "chi_eff" = Some v_eff → dataset !! "chi_p" = Some v_p →
  denote σ v_eff = Some a → denote σ v_p = Some b →
  wf a → wf b → broadcast_shapes (shape a) (shape b) = None →
  evals (_2d_probability self dataset
           mu_chi_eff sigma_chi_eff mu_chi_p sigma_chi_p spin_covariance) σ
        (Raise ValueError).
Proof.
  intros Hv Hk1 Hk2 Hd1 Hd2 Hw1 Hw2 Hs.
  pose proof (_2d_probability_evals self σ dataset
    mu_chi_eff sigma_chi_eff mu_chi_p sigma_chi_p spin_covariance Hv) as H.
  rewrite (lookup_nd_Some _ _ _ _ _ Hk1 Hd1) in H.
  rewrite (lookup_nd_Some _ _ _ _ _ Hk2 Hd2) in H.
  unfold _2d_probability_nd in H. cbn [mbind res_bind] in H.
  rewrite !nd_binop_scalar_l in H by wf_tac. cbn [mbind res_bind] in H.
  rewrite !nd_binop_scalar_r in H by wf_tac. cbn [mbind res_bind] in H.
  rewrite (nd_binop_mismatch Rplus) in H; [exact H|exact Hs].
Qed.

Lemma py_binop_num f x y σ :
  py_binop f (VNum x) (VNum y) σ = (Ok (VNum (f x y)), σ).
Proof. reflexivity. Qed.

Lemma py_unop_num f x σ : py_unop f (VNum x) σ = (Ok (VNum (f x)), σ).
Proof. reflexivity. Qed.

Lemma py_truediv_num x y σ :
  py_truediv (VNum x) (VNum y) σ =
  if decide (y = 0) then (Raise ZeroDivisionError, σ)
  else (Ok (VNum (x / y)), σ).
Proof. cbn [py_truediv]. by case_decide. Qed.

Lemma np_unop_num f x σ : np_unop f (VNum x) σ = (Ok (VScalar (f x)), σ).
Proof. reflexivity. Qed.

(** X15: on a dataset whose [chi_eff] and [chi_p] are Python numbers the
    whole exponent is computed by Python.  When the determinant is 0
    the last division raises [ZeroDivisionError]; otherwise
    [_2d_probability] returns a numpy scalar, the bivariate form at that
    pair.  Either way the state is left as it was: no array is made. *)
Theorem _2d_probability_numbers self σ dataset x y
    mu_chi_eff sigma_chi_eff mu_chi_p sigma_chi_p spin_covariance :
  dataset !! "chi_eff" = Some (VNum x) → dataset !! "chi_p" = Some (VNum y) →
  _2d_probability self dataset
    mu_chi_eff sigma_chi_eff mu_chi_p sigma_chi_p spin_covariance σ
  = (if decide (sigma_chi_eff ^ 2 * sigma_chi_p ^ 2 * (1 - spin_covariance)
                = 0)
     then Raise ZeroDivisionError
     else Ok (VScalar (spec_2d_probability
                         mu_chi_eff sigma_chi_eff mu_chi_p sigma_chi_p
                         spin_covariance x y)),
     σ).
Proof.
  intros Hk1 Hk2.
  unfold _2d_probability, py_sub, py_mul, py_add, py_neg, py_pow, xp_exp.
  cbv zeta.
  rewrite (getitem_found _ _ _ _ _ Hk1).
  rewrite bind_run, py_binop_num. cbv beta iota.
  rewrite bind_run, py_binop_num. cbv beta iota.
  rewrite (getitem_found _ _ _ _ _ Hk2).
  do 2 (rewrite bind_run, py_binop_num; cbv beta iota).
  do 2 (rewrite bind_run, py_unop_num; cbv beta iota).
  do 5 (rewrite bind_run, py_binop_num; cbv beta iota).
  rewrite bind_run, py_unop_num. cbv beta iota.
  rewrite bind_run, py_truediv_num, decide_False by lra. cbv beta iota.
  rewrite bind_run, py_truediv_num.
  case_decide; [reflexivity|].
  rewrite bind_run, np_unop_num. cbv beta iota.
  unfold spec_2d_probability, mret, M_ret. cbv zeta.
  do 4 f_equal. unfold Rdiv. rewrite (Rinv_mult 2). ring.
Qed.

(** ** The correlated branch, in general *)

(** X18: on an instance in any state it can reach, a call with a
    covariance other than 0 never returns: [_normalization] raises
    [ValueError] for all hyper-parameters, so the call raises for every
    dataset -- [ValueError] whenever [_2d_probability] itself went
    through. *)
Theorem correlated_call_never_returns self σ dataset
    mu_chi_eff sigma_chi_eff mu_chi_p sigma_chi_p spin_covariance :
  reachable self σ → spin_covariance ≠ 0 →
  evals (_normalization self
           mu_chi_eff sigma_chi_eff mu_chi_p sigma_chi_p spin_covariance) σ
        (Raise ValueError) ∧
  (∃ e, (__call__ self dataset
           mu_chi_eff sigma_chi_eff mu_chi_p sigma_chi_p spin_covariance σ).1
        = Raise e) ∧
  (∀ prob,
     evals (_2d_probability self dataset
              mu_chi_eff sigma_chi_eff mu_chi_p sigma_chi_p spin_covariance) σ
           (Ok prob) →
     evals (__call__ self dataset
              mu_chi_eff sigma_chi_eff mu_chi_p sigma_chi_p spin_covariance) σ
           (Raise ValueError)).
Proof.
  intros Hr Hc. apply reachable_built in Hr. split_and!.
  - by apply _normalization_raises.
  - by apply __call___correlated_never_returns.
  - intros prob Hp. by eapply __call___correlated_raises.
Qed.

End Models.

(** ** Worked examples on the sample data *)

Section Examples.
Local Open Scope R_scope.

Lemma sample_init :
  __init__ sample_store = (Ok sample_instance, sample_grid_store).
Proof. reflexivity. Qed.

Lemma sample_gaussian_chi_eff :
  evals (gaussian_chi_eff kernel_truncnorm sample_dataset 0 1) sample_store
        (Ok (nd_map (kernel_gauss 0 1) sample_chi_eff)).
Proof.
  exact (gaussian_chi_eff_evals kernel_truncnorm
           sample_store sample_dataset 0 1 sample_valid).
Qed.

Lemma sample_gaussian_chi_p :
  evals (gaussian_chi_p kernel_truncnorm sample_dataset (1 / 2) 1) sample_store
        (Ok (nd_map (kernel_gauss (1 / 2) 1) sample_chi_p)).
Proof.
  exact (gaussian_chi_p_evals kernel_truncnorm
           sample_store sample_dataset (1 / 2) 1 sample_valid).
Qed.

Lemma sample_magnitude :
  evals (iid_spin_magnitude_beta kernel_beta_dist sample_dataset 1 2 3)
        sample_store
        (Ok (nd_zip Rmult (nd_map (kernel_beta 2 3 1) sample_a_1)
                          (nd_map (kernel_beta 2 3 1) sample_a_2))).
Proof.
  pose proof (independent_spin_magnitude_beta_evals kernel_beta_dist
                sample_store sample_dataset 2 2 3 3 1 1 sample_valid) as H.
  rewrite (lookup_nd_Some _ _ "a_1" (VArr 0) sample_a_1) in H by done.
  rewrite (lookup_nd_Some _ _ "a_2" (VArr 1) sample_a_2) in H by done.
  rewrite (independent_spin_magnitude_beta_nd_same kernel_beta_dist _ _
             (nd_map (kernel_beta 2 3 1) sample_a_1)
             (nd_map (kernel_beta 2 3 1) sample_a_2)) in H;
    (done || lra).
Qed.

Lemma sample_orientation :
  evals (iid_spin_orientation_gaussian_isotropic kernel_truncnorm
           sample_dataset (1 / 2) 1)
        sample_store
        (Ok (nd_zip (spec_mixture (1 / 2))
               (nd_map (kernel_gauss 1 1) sample_cos_tilt_1)
               (nd_map (kernel_gauss 1 1) sample_cos_tilt_2))).
Proof.
  pose proof (independent_spin_orientation_gaussian_isotropic_evals
                kernel_truncnorm sample_store sample_dataset (1 / 2) 1 1
                sample_valid) as H.
  rewrite (lookup_nd_Some _ _ "cos_tilt_1" (VArr 2) sample_cos_tilt_1) in H
    by done.
  rewrite (lookup_nd_Some _ _ "cos_tilt_2" (VArr 3) sample_cos_tilt_2) in H
    by done.
  by rewrite (independent_spin_orientation_gaussian_isotropic_nd_same
                kernel_truncnorm _ _
                (nd_map (kernel_gauss 1 1) sample_cos_tilt_1)
                (nd_map (kernel_gauss 1 1) sample_cos_tilt_2)) in H.
Qed.


Lemma call_zero_covariance_witness :
  evals (__call__ kernel_truncnorm sample_div_by_zero sample_instance sample_dataset
           0 1 (1 / 2) 1 0)
        sample_store
        (Ok (nd_zip Rmult (nd_map (kernel_gauss 0 1) sample_chi_eff)
                          (nd_map (kernel_gauss (1 / 2) 1) sample_chi_p))).
Proof.
  apply (call_zero_covariance kernel_truncnorm sample_div_by_zero sample_instance
           sample_store sample_dataset);
    [ apply sample_valid
    | apply sample_gaussian_chi_eff
    | apply sample_gaussian_chi_p
    | reflexivity .. ].
Defined.

Lemma independent_spin_orientation_gaussian_isotropic_mixture_witness :
  evals (independent_spin_orientation_gaussian_isotropic kernel_truncnorm
           sample_dataset (1 / 2) 1 2)
        sample_store
        (Ok (nd_zip (spec_mixture (1 / 2))
               (nd_map (kernel_gauss 1 1) sample_cos_tilt_1)
               (nd_map (kernel_gauss 1 2) sample_cos_tilt_2))).
Proof.
  apply (independent_spin_orientation_gaussian_isotropic_mixture
           kernel_truncnorm sample_store sample_dataset (VArr 2) (VArr 3)
           sample_cos_tilt_1 sample_cos_tilt_2);
    [apply sample_valid | reflexivity ..].
Defined.

Lemma independent_spin_magnitude_beta_product_witness :
  evals (independent_spin_magnitude_beta kernel_beta_dist sample_dataset
           2 0 3 1 1 1)
        sample_store
        (Ok (nd_zip Rmult (nd_map (kernel_beta 2 3 1) sample_a_1)
                          (nd_map (kernel_beta 0 1 1) sample_a_2))).
Proof.
  apply (independent_spin_magnitude_beta_product kernel_beta_dist
           sample_store sample_dataset (VArr 0) (VArr 1)
           sample_a_1 sample_a_2);
    [apply sample_valid | first [reflexivity | lra] ..].
Defined.

Lemma independent_spin_magnitude_beta_negative_witness :
  independent_spin_magnitude_beta kernel_beta_dist sample_dataset
    1 1 (-1) 1 1 1 sample_store
  = (Ok (VNum 0), sample_store).
Proof.
  apply (independent_spin_magnitude_beta_negative kernel_beta_dist
           sample_store sample_dataset 1 1 (-1) 1 1 1).
  right. left. lra.
Defined.

Lemma independent_spin_magnitude_beta_guard_witness :
  let run := independent_spin_magnitude_beta kernel_beta_dist sample_dataset
               0 1 0 1 1 1 sample_store in
  run ≠ (Ok (VNum 0), sample_store) ∧
  ∃ later, calls run.2 = CallBetaDist sample_a_1 0 0 1 :: later.
Proof.
  destruct (independent_spin_magnitude_beta_guard kernel_beta_dist
              sample_store sample_dataset (VArr 0) sample_a_1 0 1 0 1 1 1
              eq_refl eq_refl) as [Hiff Hcall].
  split.
  - intros Hrun. apply Hiff in Hrun. lra.
  - apply Hcall; lra.
Defined.

Lemma iid_spin_product_witness :
  evals (iid_spin kernel_beta_dist kernel_truncnorm sample_dataset
           (1 / 2) 1 1 2 3)
        sample_store
        (nd_binop Rmult
           (nd_zip Rmult (nd_map (kernel_beta 2 3 1) sample_a_1)
                         (nd_map (kernel_beta 2 3 1) sample_a_2))
           (nd_zip (spec_mixture (1 / 2))
              (nd_map (kernel_gauss 1 1) sample_cos_tilt_1)
              (nd_map (kernel_gauss 1 1) sample_cos_tilt_2))).
Proof.
  apply (iid_spin_product kernel_beta_dist kernel_truncnorm
           sample_store sample_dataset);
    [apply sample_valid | apply sample_magnitude | apply sample_orientation].
Defined.

Lemma grid_never_changes_witness :
  let σ := (__call__ kernel_truncnorm sample_div_by_zero sample_instance sample_dataset
              0 1 (1 / 2) 1 0 sample_grid_store).2 in
  construction_grid sample_instance σ ∧
  ∀ σ', step kernel_truncnorm sample_div_by_zero sample_instance σ σ' →
        same_grid sample_instance σ σ'.
Proof.
  apply (grid_never_changes kernel_truncnorm sample_div_by_zero).
  eapply reach_step.
  - eapply reach_init. apply sample_init.
  - apply step_call.
Defined.

End Examples.

(** ** Worked examples for the edge cases *)

Section EdgeExamples.
Local Open Scope R_scope.

Ltac valid_tac :=
  unfold valid;
  repeat (apply map_Forall_insert_2; [by eexists|]);
  apply map_Forall_empty.

Lemma one_two_valid : valid edge_store dataset_one_two.
Proof. valid_tac. Qed.

Lemma two_one_valid : valid edge_store dataset_two_one.
Proof. valid_tac. Qed.

Lemma two_three_valid : valid edge_store dataset_two_three.
Proof. valid_tac. Qed.

Lemma a_1_only_valid : valid sample_store dataset_a_1_only.
Proof. valid_tac. Qed.

Lemma sample_grid_extends : extends sample_store sample_grid_store.
Proof. split; [by eexists|done]. Qed.

Lemma sample_reachable : reachable kernel_truncnorm sample_div_by_zero sample_instance sample_grid_store.
Proof. eapply reach_init. apply sample_init. Qed.

Lemma sample_iid_spin :
  evals (iid_spin kernel_beta_dist kernel_truncnorm sample_dataset
           (1 / 2) 1 1 2 3)
        sample_store
        (nd_binop Rmult
           (nd_zip (spec_mixture (1 / 2))
              (nd_map (kernel_gauss 1 1) sample_cos_tilt_1)
              (nd_map (kernel_gauss 1 1) sample_cos_tilt_2))
           (nd_zip Rmult (nd_map (kernel_beta 2 3 1) sample_a_1)
                         (nd_map (kernel_beta 2 3 1) sample_a_2))).
Proof.
  pose proof (iid_spin_evals kernel_beta_dist kernel_truncnorm
                sample_store sample_dataset (1 / 2) 1 1 2 3 sample_valid) as H.
  pose proof sample_orientation as Ho. pose proof sample_magnitude as Hm.
  pose proof (independent_spin_orientation_gaussian_isotropic_evals
                kernel_truncnorm sample_store sample_dataset (1 / 2) 1 1
                sample_valid) as Ho'.
  pose proof (independent_spin_magnitude_beta_evals kernel_beta_dist
                sample_store sample_dataset 2 2 3 3 1 1 sample_valid) as Hm'.
  unfold evals, iid_spin_orientation_gaussian_isotropic in Ho, Ho'.
  unfold evals, iid_spin_magnitude_beta in Hm, Hm'.
  rewrite <- (runs_det _ _ _ _ _ Ho Ho') in H.
  rewrite <- (runs_det _ _ _ _ _ Hm Hm') in H.
  exact H.
Qed.

Lemma correlated_branch_calls_no_primitive_witness :
  calls (_2d_probability sample_div_by_zero sample_instance sample_dataset
           0 1 (1 / 2) 1 (1 / 2) sample_grid_store).2 = [] ∧
  calls (_normalization sample_div_by_zero sample_instance
           0 1 (1 / 2) 1 (1 / 2) sample_grid_store).2 = [] ∧
  calls (__call__ kernel_truncnorm sample_div_by_zero sample_instance sample_dataset
           0 1 (1 / 2) 1 (1 / 2) sample_grid_store).2 = [].
Proof.
  apply (correlated_branch_calls_no_primitive kernel_truncnorm sample_div_by_zero
           sample_instance sample_dataset sample_grid_store
           0 1 (1 / 2) 1 (1 / 2)).
  lra.
Defined.

Lemma iid_spin_negative_calls_witness :
  emits is_truncnorm
    (iid_spin kernel_beta_dist kernel_truncnorm sample_dataset
       (1 / 2) 1 1 2 (-3)).
Proof.
  apply (iid_spin_negative_calls kernel_beta_dist kernel_truncnorm
           sample_dataset (1 / 2) 1 1 2 (-3)).
  right. lra.
Defined.

Lemma independent_spin_magnitude_beta_missing_a_1_witness :
  independent_spin_magnitude_beta kernel_beta_dist dataset_one_two
    2 1 3 1 1 1 edge_store
  = (Raise (KeyError "a_1"), edge_store).
Proof.
  apply (independent_spin_magnitude_beta_missing_a_1 kernel_beta_dist
           edge_store dataset_one_two 2 1 3 1 1 1);
    first [lra | reflexivity].
Defined.

Lemma iid_spin_missing_cos_tilt_1_witness :
  iid_spin kernel_beta_dist kernel_truncnorm dataset_a_1_only
    (1 / 2) 1 1 (-2) 3 sample_store
  = (Raise (KeyError "cos_tilt_1"), sample_store).
Proof.
  apply (iid_spin_missing_cos_tilt_1 kernel_beta_dist kernel_truncnorm
           sample_store dataset_a_1_only).
  reflexivity.
Defined.

Lemma __call___missing_chi_eff_witness :
  __call__ kernel_truncnorm sample_div_by_zero sample_instance dataset_a_1_only
    0 1 (1 / 2) 1 (1 / 2) sample_grid_store
  = (Raise (KeyError "chi_eff"), sample_grid_store).
Proof.
  apply (__call___missing_chi_eff kernel_truncnorm sample_div_by_zero sample_instance
           sample_grid_store dataset_a_1_only).
  reflexivity.
Defined.

Lemma independent_spin_magnitude_beta_calls_witness :
  calls (independent_spin_magnitude_beta kernel_beta_dist dataset_a_1_only
           2 1 3 1 1 1 sample_store).2
  = [CallBetaDist sample_a_1 2 3 1] ∧
  calls (independent_spin_magnitude_beta kernel_beta_dist sample_dataset
           2 1 3 1 1 1 sample_store).2
  = [CallBetaDist sample_a_1 2 3 1; CallBetaDist sample_a_2 1 1 1].
Proof.
  split.
  - apply (independent_spin_magnitude_beta_calls kernel_beta_dist
             sample_store dataset_a_1_only (VArr 0) sample_a_1 2 1 3 1 1 1);
      first [apply a_1_only_valid | lra | reflexivity].
  - apply (independent_spin_magnitude_beta_calls kernel_beta_dist
             sample_store sample_dataset (VArr 0) sample_a_1 2 1 3 1 1 1);
      first [apply sample_valid | lra | reflexivity].
Defined.

Lemma gaussian_marginals_witness :
  evals (gaussian_chi_eff kernel_truncnorm sample_dataset 0 1) sample_store
        (TruncGaussian kernel_truncnorm sample_chi_eff 0 1 (-1) 1) ∧
  evals (gaussian_chi_p kernel_truncnorm sample_dataset (1 / 2) 1) sample_store
        (TruncGaussian kernel_truncnorm sample_chi_p (1 / 2) 1 0 1).
Proof.
  apply (gaussian_marginals kernel_truncnorm sample_store sample_dataset
           (VArr 4) (VArr 5));
    first [apply sample_valid | reflexivity].
Defined.

Lemma iid_spin_repeatable_witness :
  evals (iid_spin kernel_beta_dist kernel_truncnorm sample_dataset
           (1 / 2) 1 1 2 3)
        sample_grid_store
        (nd_binop Rmult
           (nd_zip (spec_mixture (1 / 2))
              (nd_map (kernel_gauss 1 1) sample_cos_tilt_1)
              (nd_map (kernel_gauss 1 1) sample_cos_tilt_2))
           (nd_zip Rmult (nd_map (kernel_beta 2 3 1) sample_a_1)
                         (nd_map (kernel_beta 2 3 1) sample_a_2))).
Proof.
  apply (iid_spin_repeatable kernel_beta_dist kernel_truncnorm
           sample_store sample_grid_store sample_dataset);
    [apply sample_valid | apply sample_grid_extends | apply sample_iid_spin].
Defined.

Lemma iid_spin_negative_zeros_witness :
  evals (iid_spin kernel_beta_dist kernel_truncnorm sample_dataset
           (1 / 2) 1 1 (-2) 3)
        sample_store
        (Ok (NdArray [2%nat] [0; 0])).
Proof.
  apply (iid_spin_negative_zeros kernel_beta_dist kernel_truncnorm
           sample_store sample_dataset (1 / 2) 1 1 (-2) 3
           (nd_zip (spec_mixture (1 / 2))
              (nd_map (kernel_gauss 1 1) sample_cos_tilt_1)
              (nd_map (kernel_gauss 1 1) sample_cos_tilt_2)));
    [apply sample_valid | left; lra | apply sample_orientation | reflexivity].
Defined.

Lemma independent_spin_orientation_gaussian_isotropic_ends_witness :
  evals (independent_spin_orientation_gaussian_isotropic kernel_truncnorm
           sample_dataset 0 1 2)
        sample_store
        (Ok (NdArray [2%nat] [1 / 4; 1 / 4])) ∧
  evals (independent_spin_orientation_gaussian_isotropic kernel_truncnorm
           sample_dataset 1 1 2)
        sample_store
        (Ok (nd_zip Rmult (nd_map (kernel_gauss 1 1) sample_cos_tilt_1)
                          (nd_map (kernel_gauss 1 2) sample_cos_tilt_2))).
Proof.
  apply (independent_spin_orientation_gaussian_isotropic_ends
           kernel_truncnorm sample_store sample_dataset (VArr 2) (VArr 3)
           sample_cos_tilt_1 sample_cos_tilt_2
           (nd_map (kernel_gauss 1 1) sample_cos_tilt_1)
           (nd_map (kernel_gauss 1 2) sample_cos_tilt_2));
    first [apply sample_valid | reflexivity].
Defined.

Lemma call_zero_covariance_cannot_grow_witness :
  evals (__call__ kernel_truncnorm sample_div_by_zero sample_instance dataset_one_two
           0 1 (1 / 2) 1 0)
        edge_store (Raise ValueError) ∧
  ∃ c, nd_binop Rmult (nd_map (kernel_gauss 0 1) edge_one)
                      (nd_map (kernel_gauss (1 / 2) 1) edge_two) = Ok c ∧
       shape c = [2%nat].
Proof.
  apply (call_zero_covariance_cannot_grow kernel_truncnorm sample_div_by_zero sample_instance
           edge_store dataset_one_two 0 1 (1 / 2) 1);
    [ apply one_two_valid
    | exact (gaussian_chi_eff_evals kernel_truncnorm edge_store
               dataset_one_two 0 1 one_two_valid)
    | exact (gaussian_chi_p_evals kernel_truncnorm edge_store
               dataset_one_two (1 / 2) 1 one_two_valid)
    | reflexivity | reflexivity | lia ].
Defined.

Lemma call_zero_covariance_broadcasts_one_witness :
  evals (__call__ kernel_truncnorm sample_div_by_zero sample_instance dataset_two_one
           0 1 (1 / 2) 1 0)
        edge_store
        (Ok (nd_map (λ x, x * kernel_gauss (1 / 2) 1 0.25)
               (nd_map (kernel_gauss 0 1) edge_two))).
Proof.
  apply (call_zero_covariance_broadcasts_one kernel_truncnorm sample_div_by_zero sample_instance
           edge_store dataset_two_one 0 1 (1 / 2) 1
           (nd_map (kernel_gauss 0 1) edge_two)
           (nd_map (kernel_gauss (1 / 2) 1) edge_one) 2);
    [ apply two_one_valid
    | exact (gaussian_chi_eff_evals kernel_truncnorm edge_store
               dataset_two_one 0 1 two_one_valid)
    | exact (gaussian_chi_p_evals kernel_truncnorm edge_store
               dataset_two_one (1 / 2) 1 two_one_valid)
    | reflexivity .. ].
Defined.

Lemma _2d_probability_shape_mismatch_witness :
  evals (_2d_probability sample_div_by_zero sample_instance dataset_two_three
           0 1 (1 / 2) 1 (1 / 2))
        edge_store (Raise ValueError).
Proof.
  apply (_2d_probability_shape_mismatch sample_div_by_zero sample_instance edge_store
           dataset_two_three (VArr 1) (VArr 2) edge_two edge_three);
    first [apply two_three_valid | reflexivity].
Defined.

Lemma _2d_probability_numbers_witness :
  _2d_probability sample_div_by_zero sample_instance dataset_numbers
    0 1 (1 / 2) 1 1 edge_store
  = (Raise ZeroDivisionError, edge_store) ∧
  _2d_probability sample_div_by_zero sample_instance dataset_numbers
    0 1 (1 / 2) 1 (1 / 2) edge_store
  = (Ok (VScalar (spec_2d_probability 0 1 (1 / 2) 1 (1 / 2) 0 (1 / 2))),
     edge_store).
Proof.
  split.
  - rewrite (_2d_probability_numbers sample_div_by_zero sample_instance
               edge_store dataset_numbers 0 (1 / 2) 0 1 (1 / 2) 1 1)
      by reflexivity.
    rewrite decide_True by (simpl; lra). reflexivity.
  - rewrite (_2d_probability_numbers sample_div_by_zero sample_instance
               edge_store dataset_numbers 0 (1 / 2) 0 1 (1 / 2) 1 (1 / 2))
      by reflexivity.
    rewrite decide_False by (simpl; lra). reflexivity.
Defined.

Lemma correlated_call_never_returns_witness :
  evals (_normalization sample_div_by_zero sample_instance 0 1 (1 / 2) 1 (1 / 2))
        sample_grid_store (Raise ValueError) ∧
  (∃ e, (__call__ kernel_truncnorm sample_div_by_zero sample_instance dataset_a_1_only
           0 1 (1 / 2) 1 (1 / 2) sample_grid_store).1 = Raise e) ∧
  (∀ prob,
     evals (_2d_probability sample_div_by_zero sample_instance dataset_a_1_only
              0 1 (1 / 2) 1 (1 / 2)) sample_grid_store (Ok prob) →
     evals (__call__ kernel_truncnorm sample_div_by_zero sample_instance dataset_a_1_only
              0 1 (1 / 2) 1 (1 / 2)) sample_grid_store (Raise ValueError)).
Proof.
  apply (correlated_call_never_returns kernel_truncnorm sample_div_by_zero sample_instance
           sample_grid_store dataset_a_1_only);
    [apply sample_reachable | lra].
Defined.

End EdgeExamples.
